(** * Token ingestion service: a shallow embedding of
      [hybrid_server.py] (class [TokenHybridServer]) and
      [websocket_server.py] (class [TokenWebSocketServer]).

    Python values are embedded as JSON values ([None] is [JNull]); a [str]
    is a [string], one element per character; a Python [dict] is an
    association list in insertion order; the set of connected
    websockets is a finite set of connection identities whose iteration
    order is the (fixed, unspecified) enumeration [elements].  Coroutines
    are embedded as state transformers that may raise: the state persists
    when an exception propagates.  What the environment decides (the clock,
    whether a send raises, how an exception prints) is a [world].  A call
    of the logger is recorded with its level, an English key for its
    message and the values the message interpolates. *)

From stdpp Require Import gmap strings list.
From Stdlib Require Import ZArith.

Set Warnings "-register-all,-clear-no-such-hyp".
Local Open Scope string_scope.
Local Open Scope list_scope.

(** ** Python values *)

(** Values produced by [json.loads]; numbers are the integer literals
    (non-integer literals play no part in the code modelled here). *)
Inductive json : Type :=
| JNull
| JBool (b : bool)
| JInt (n : Z)
| JStr (s : string)
| JArr (items : list json)
| JObj (members : list (string * json)).

Definition dict : Type := list (string * json).

Inductive exn : Type :=
| JSONDecodeError
| AttributeError
| TypeError
| KeyError
| ConnectionClosed
| OSError
| RuntimeError
| UnicodeDecodeError
| ValueError
| RecursionError.

Inductive result (A : Type) : Type :=
| Ok (a : A)
| Raise (e : exn).
Arguments Ok {A} a.
Arguments Raise {A} e.

(** [bool(v)]: [None], [False], [0], [''], [[]] and [{}] are false. *)
Definition truthy (v : json) : bool :=
  match v with
  | JNull => false
  | JBool b => b
  | JInt n => negb (n =? 0)%Z
  | JStr s => match s with EmptyString => false | String _ _ => true end
  | JArr items => match items with [] => false | _ :: _ => true end
  | JObj members => match members with [] => false | _ :: _ => true end
  end.

(** [len(v)] *)
Definition len (v : json) : result Z :=
  match v with
  | JStr s => Ok (Z.of_nat (String.length s))
  | JArr items => Ok (Z.of_nat (length items))
  | JObj members => Ok (Z.of_nat (length members))
  | JNull | JBool _ | JInt _ => Raise TypeError
  end.

(** [v == s] for a string literal [s] *)
Definition eq_str (v : json) (s : string) : bool :=
  match v with
  | JStr t => String.eqb t s
  | _ => false
  end.

(** *** dict *)

Fixpoint dict_lookup (d : dict) (k : string) : option json :=
  match d with
  | [] => None
  | (k', v) :: d' => if String.eqb k k' then Some v else dict_lookup d' k
  end.

(** [d.get(k, default)]; [d.get(k)] is [dict_get d k JNull]. *)
Definition dict_get (d : dict) (k : string) (default : json) : json :=
  match dict_lookup d k with
  | Some v => v
  | None => default
  end.

(** [v.get(k, default)] on a value that need not be a dict *)
Definition get (v : json) (k : string) (default : json) : result json :=
  match v with
  | JObj d => Ok (dict_get d k default)
  | _ => Raise AttributeError
  end.

(** [d[k] = v]: an existing key keeps its place, a new one goes last. *)
Fixpoint dict_setitem (d : dict) (k : string) (v : json) : dict :=
  match d with
  | [] => [(k, v)]
  | (k', v') :: d' =>
      if String.eqb k k' then (k', v) :: d' else (k', v') :: dict_setitem d' k v
  end.

(** [s[:8]] *)
Fixpoint str_take (n : nat) (s : string) : string :=
  match n, s with
  | S n', String c s' => String c (str_take n' s')
  | _, _ => EmptyString
  end.

(** [v[:8] + '...']: only a [str] passes both the slice and the [+]. *)
Definition slice8_plus_dots (v : json) : result json :=
  match v with
  | JStr s => Ok (JStr (str_take 8 s +:+ "..."))
  | _ => Raise TypeError
  end.

(** *** The registry [self.tokens : Dict[str, dict]]

    Keys are whatever [accessToken] was; Python compares them with [==]
    ([True == 1]) and refuses unhashable ones (lists and dicts). *)

Definition registry : Type := list (json * dict).

Definition hashable (k : json) : bool :=
  match k with
  | JArr _ | JObj _ => false
  | _ => true
  end.

Definition key_eqb (a b : json) : bool :=
  match a, b with
  | JNull, JNull => true
  | JStr s, JStr t => String.eqb s t
  | JBool x, JBool y => Bool.eqb x y
  | JInt x, JInt y => (x =? y)%Z
  | JBool x, JInt y | JInt y, JBool x => ((if x then 1 else 0) =? y)%Z
  | _, _ => false
  end.

Fixpoint registry_lookup (r : registry) (k : json) : option dict :=
  match r with
  | [] => None
  | (k', v) :: r' => if key_eqb k k' then Some v else registry_lookup r' k
  end.

(** [r[k] = v] once [k] is known to be hashable *)
Fixpoint registry_store (r : registry) (k : json) (v : dict) : registry :=
  match r with
  | [] => [(k, v)]
  | (k', v') :: r' =>
      if key_eqb k k' then (k', v) :: r' else (k', v') :: registry_store r' k v
  end.

Definition registry_setitem (r : registry) (k : json) (v : dict) : result registry :=
  if hashable k then Ok (registry_store r k v) else Raise TypeError.

(** ** The service state and its environment *)

Definition conn : Type := nat.

Inductive level : Type := INFO | WARNING | ERROR.

(** One call of [logger.info], [logger.warning] or [logger.error]: the
    level, which message it is, and the values interpolated into it. *)
Record log_record : Type := LogRecord {
  levelname : level;
  msg : string;
  args : list json
}.

(** One [await websocket.send(json.dumps(message))]. *)
Record attempt : Type := Attempt {
  target : conn;
  payload : json;
  delivered : bool
}.

Record server : Type := Server {
  connected_clients : gset conn;
  tokens : registry;
  clock : nat;            (* readings of [datetime.now()] taken so far *)
  wire : list attempt;    (* every send attempted so far, oldest first *)
  log : list log_record   (* oldest first *)
}.

Record world : Type := World {
  isoformat : nat -> string;          (* the k-th reading of the clock *)
  send_raises : nat -> conn -> bool;  (* does the k-th send, made to c, raise *)
  exn_str : exn -> string             (* [str(e)] *)
}.

(** [TokenHybridServer(port)] and [TokenWebSocketServer(port)] *)
Definition init : server :=
  {| connected_clients := ∅; tokens := []; clock := 0; wire := []; log := [] |}.

(** *** Coroutines *)

Definition M (A : Type) : Type := server -> server * result A.

Definition ret {A} (a : A) : M A := fun st => (st, Ok a).

Definition raise {A} (e : exn) : M A := fun st => (st, Raise e).

Definition bind {A B} (m : M A) (k : A -> M B) : M B :=
  fun st =>
    match m st with
    | (st', Ok a) => k a st'
    | (st', Raise e) => (st', Raise e)
    end.

Definition lift {A} (r : result A) : M A := fun st => (st, r).

(** [try: m  except Exception as e: handler e] *)
Definition try_except {A} (m : M A) (handler : exn -> M A) : M A :=
  fun st =>
    match m st with
    | (st', Ok a) => (st', Ok a)
    | (st', Raise e) => handler e st'
    end.

Notation "x <- m ;; k" := (bind m (fun x => k))
  (at level 100, m at next level, right associativity).
Notation "m ;; k" := (bind m (fun _ => k))
  (at level 100, right associativity).

(** [for x in xs: acc = body acc x] *)
Fixpoint for_each {A S} (body : S -> A -> M S) (xs : list A) (acc : S) : M S :=
  match xs with
  | [] => ret acc
  | x :: xs' => acc' <- body acc x ;; for_each body xs' acc'
  end.

Definition logger (lvl : level) (what : string) (values : list json) : M unit :=
  fun st =>
    ({| connected_clients := connected_clients st; tokens := tokens st;
        clock := clock st; wire := wire st;
        log := log st ++ [LogRecord lvl what values] |}, Ok tt).

Definition len_tokens : M Z :=
  fun st => (st, Ok (Z.of_nat (length (tokens st)))).

Definition set_tokens (r : registry) : M unit :=
  fun st =>
    ({| connected_clients := connected_clients st; tokens := r;
        clock := clock st; wire := wire st; log := log st |}, Ok tt).

Definition tokens_setitem (k : json) (v : dict) : M unit :=
  fun st =>
    match registry_setitem (tokens st) k v with
    | Ok r => set_tokens r st
    | Raise e => (st, Raise e)
    end.

(** [self.connected_clients.add(c)] *)
Definition clients_add (c : conn) : M unit :=
  fun st =>
    ({| connected_clients := connected_clients st ∪ {[c]}; tokens := tokens st;
        clock := clock st; wire := wire st; log := log st |}, Ok tt).

(** [self.connected_clients.remove(c)]: [KeyError] when [c] is not there. *)
Definition clients_remove (c : conn) : M unit :=
  fun st =>
    if decide (c ∈ connected_clients st) then
      ({| connected_clients := connected_clients st ∖ {[c]}; tokens := tokens st;
          clock := clock st; wire := wire st; log := log st |}, Ok tt)
    else (st, Raise KeyError).

Section Environment.

Variable W : world.

(** [datetime.now().isoformat()] *)
Definition now_isoformat : M json :=
  fun st =>
    ({| connected_clients := connected_clients st; tokens := tokens st;
        clock := S (clock st); wire := wire st; log := log st |},
     Ok (JStr (isoformat W (clock st)))).

(** [await websocket.send(json.dumps(message))] *)
Definition websocket_send (c : conn) (message : json) : M unit :=
  fun st =>
    let fails := send_raises W (length (wire st)) c in
    ({| connected_clients := connected_clients st; tokens := tokens st;
        clock := clock st;
        wire := wire st ++ [Attempt c message (negb fails)];
        log := log st |},
     if fails then Raise ConnectionClosed else Ok tt).

End Environment.

(** [try: m  except cls: handler] for one exception class *)
Definition try_except_only {A} (cls : exn -> bool) (m : M A) (handler : M A) : M A :=
  fun st =>
    match m st with
    | (st', Ok a) => (st', Ok a)
    | (st', Raise e) => if cls e then handler st' else (st', Raise e)
    end.

(** [try: m  finally: final] *)
Definition try_finally {A} (m : M A) (final : M unit) : M A :=
  fun st =>
    match m st with
    | (st', r) =>
        match final st' with
        | (st'', Ok _) => (st'', r)
        | (st'', Raise e) => (st'', Raise e)
        end
    end.

Definition is_ConnectionClosed (e : exn) : bool :=
  match e with
  | ConnectionClosed => true
  | _ => false
  end.

(** An inbound websocket frame or HTTP body, by what [json.loads] (for
    a body, [await request.json()]) makes of it: text that is not JSON
    ([JSONDecodeError]), a value, or any other exception the decoding
    raises ([UnicodeDecodeError] for bytes that are not UTF-8,
    [RecursionError] for a value nested too deep, ...). *)
Inductive frame : Type :=
| Malformed
| Parsed (data : json)
| Unreadable (e : exn).

Definition json_loads (message : frame) : result json :=
  match message with
  | Malformed => Raise JSONDecodeError
  | Parsed data => Ok data
  | Unreadable e => Raise e
  end.

(** ** Methods whose text is the same in both classes *)

Section Shared.

Variable W : world.

(** [send_message] (hybrid_server.py 185-190, websocket_server.py 155-160) *)
Definition send_message (websocket : conn) (message : json) : M unit :=
  try_except (websocket_send W websocket message)
             (fun e => logger ERROR "send failed" [JStr (exn_str W e)]).

(** The body of the first loop of [broadcast]. *)
Definition broadcast_send (message : json) (disconnected : list conn) (client : conn)
  : M (list conn) :=
  try_except (websocket_send W client message ;; ret disconnected)
             (fun _ => ret (disconnected ++ [client])).

(** The body of the second loop of [broadcast]. *)
Definition broadcast_prune (_ : unit) (client : conn) : M unit :=
  clients_remove client.

(** [broadcast] (hybrid_server.py 192-206, websocket_server.py 162-176),
    for a pass during which no other connection is accepted or ends; the
    general case is [Live.broadcast] below. *)
Definition broadcast (message : json) : M unit :=
  fun st =>
    if decide (connected_clients st = ∅) then (st, Ok tt)
    else
      (disconnected <- for_each (broadcast_send message)
                                (elements (connected_clients st)) [] ;;
       for_each broadcast_prune disconnected tt) st.

(** [handle_token_error] (hybrid_server.py 176-181, websocket_server.py 146-151) *)
Definition handle_token_error (data : json) : M unit :=
  error_msg <- lift (get data "error" (JStr "未知错误")) ;;
  status <- lift (get data "status" (JStr "unknown")) ;;
  logger WARNING "token error" [error_msg; status].

(** [get_tokens] *)
Definition get_tokens (st : server) : list json := map fst (tokens st).

(** [get_token_info] (hybrid_server.py 323-325, websocket_server.py 182-184) *)
Definition get_token_info (st : server) (token : string) : dict :=
  match registry_lookup (tokens st) (JStr token) with
  | Some token_data => token_data
  | None => []
  end.

(** [get_all_token_info] *)
Definition get_all_token_info (st : server) : list dict := map snd (tokens st).

Fixpoint registry_del (r : registry) (k : json) : registry :=
  match r with
  | [] => []
  | (k', v) :: r' => if key_eqb k k' then r' else (k', v) :: registry_del r' k
  end.

(** [remove_token] *)
Definition remove_token (token : string) : M bool :=
  fun st =>
    match registry_lookup (tokens st) (JStr token) with
    | Some _ =>
        (set_tokens (registry_del (tokens st) (JStr token)) ;;
         logger INFO "token removed" [JStr (str_take 8 token)] ;;
         ret true) st
    | None => (st, Ok false)
    end.

(** [clear_tokens] (hybrid_server.py 339-343, websocket_server.py 198-202);
    the body has no [return], so a call evaluates to [None]. *)
Definition clear_tokens : M json :=
  count <- len_tokens ;;
  set_tokens [] ;;
  logger INFO "all tokens cleared" [JInt count] ;;
  ret JNull.

(** [request_token_refresh] *)
Definition request_token_refresh : M unit :=
  timestamp <- now_isoformat W ;;
  broadcast (JObj [("type", JStr "request_token");
                   ("message", JStr "服务器请求刷新Token");
                   ("timestamp", timestamp)]) ;;
  logger INFO "token refresh requested" [].

(** [handle_client] (hybrid_server.py 82-94, websocket_server.py 54-66),
    over the class's own [handle_message].  [incoming] are the frames the
    connection yields before it closes; [abrupt] tells whether the iteration
    ends by raising [ConnectionClosed]. *)
Definition handle_client (handle_message : conn -> frame -> M unit)
    (websocket : conn) (incoming : list frame) (abrupt : bool) : M unit :=
  let client_id := JInt (Z.of_nat websocket) in
  logger INFO "client connected" [client_id] ;;
  clients_add websocket ;;
  try_finally
    (try_except_only is_ConnectionClosed
       (for_each (fun _ message => handle_message websocket message) incoming tt ;;
        if abrupt then raise ConnectionClosed else ret tt)
       (logger INFO "client disconnected" [client_id]))
    (clients_remove websocket).

(** What the connections do, seen from the service: the three stages of
    [handle_client], which different connections interleave. *)
Inductive event : Type :=
| Connect (websocket : conn)
| Receive (websocket : conn) (message : frame)
| Disconnect (websocket : conn) (abrupt : bool).

Definition react (handle_message : conn -> frame -> M unit) (ev : event) : M unit :=
  match ev with
  | Connect websocket =>
      logger INFO "client connected" [JInt (Z.of_nat websocket)] ;;
      clients_add websocket
  | Receive websocket message => handle_message websocket message
  | Disconnect websocket abrupt =>
      (if abrupt
       then logger INFO "client disconnected" [JInt (Z.of_nat websocket)]
       else ret tt) ;;
      clients_remove websocket
  end.

(** A run of the service: an exception that leaves a connection handler
    ends that handler only, the service goes on with the state as it is. *)
Fixpoint run (handle_message : conn -> frame -> M unit) (evs : list event)
    (st : server) : server :=
  match evs with
  | [] => st
  | ev :: evs' => run handle_message evs' (fst (react handle_message ev st))
  end.

End Shared.

(** ** [websocket_server.py]: class [TokenWebSocketServer] *)

Module Legacy.
Section Methods.

Variable W : world.

(** [handle_token_update] (websocket_server.py 112-144) *)
Definition handle_token_update (data : json) : M unit :=
  access_token <- lift (get data "accessToken" JNull) ;;
  if negb (truthy access_token) then
    logger WARNING "token update without accessToken" []
  else
    user_info <- lift (get data "user" (JObj [])) ;;
    user_name <- lift (get user_info "name" (JStr "unknown")) ;;
    user_email <- lift (get user_info "email" (JStr "unknown")) ;;
    expires <- lift (get data "expires" JNull) ;;
    status <- lift (get data "status" (JStr "active")) ;;
    last_updated <- now_isoformat W ;;
    tokens_setitem access_token
      [("token", access_token);
       ("user_name", user_name);
       ("user_email", user_email);
       ("expires", expires);
       ("status", status);
       ("last_updated", last_updated);
       ("raw_data", data)] ;;
    logger INFO "token update received" [user_name; user_email] ;;
    token_length <- lift (len access_token) ;;
    logger INFO "token length" [JInt token_length] ;;
    count <- len_tokens ;;
    logger INFO "token count" [JInt count] ;;
    timestamp <- now_isoformat W ;;
    total_tokens <- len_tokens ;;
    broadcast W (JObj [("type", JStr "token_received");
                       ("user", user_name);
                       ("timestamp", timestamp);
                       ("total_tokens", JInt total_tokens)]).

(** The dispatch of [handle_message] on [type], inside its [try]. *)
Definition dispatch (websocket : conn) (message : frame) : M unit :=
  data <- lift (json_loads message) ;;
  msg_type <- lift (get data "type" JNull) ;;
  if eq_str msg_type "connection" then
    client <- lift (get data "client" (JStr "unknown")) ;;
    logger INFO "connection confirmed" [client] ;;
    timestamp <- now_isoformat W ;;
    send_message W websocket
      (JObj [("type", JStr "welcome");
             ("message", JStr "WebSocket服务器连接成功");
             ("timestamp", timestamp);
             ("server_version", JStr "1.0.0")])
  else if eq_str msg_type "token_update" then
    handle_token_update data
  else if eq_str msg_type "token_error" then
    handle_token_error data
  else if eq_str msg_type "heartbeat" then
    timestamp <- now_isoformat W ;;
    send_message W websocket
      (JObj [("type", JStr "pong"); ("timestamp", timestamp)])
  else if eq_str msg_type "pong" then
    ret tt
  else
    logger WARNING "unknown message type" [msg_type].

(** [handle_message] (websocket_server.py 68-110) *)
Definition handle_message (websocket : conn) (message : frame) : M unit :=
  try_except (dispatch websocket message)
    (fun e =>
       match e with
       | JSONDecodeError => logger ERROR "message parse failed" [JStr (exn_str W e)]
       | _ => logger ERROR "message handling failed" [JStr (exn_str W e)]
       end).

End Methods.
End Legacy.

(** ** [hybrid_server.py]: class [TokenHybridServer] *)

Module Hybrid.

(** What [web.json_response(body, status=...)] answers. *)
Record response : Type := Response {
  status : Z;
  body : dict
}.

Definition json_response (body : dict) (status : Z) : response :=
  Response status body.

(** The status code of a call that was answered. *)
Definition status_of (outcome : server * result response) : option Z :=
  match snd outcome with
  | Ok answer => Some (status answer)
  | Raise _ => None
  end.

(** [d['transport'] = v] on a value that need not be a dict *)
Definition setitem (d : json) (k : string) (v : json) : result json :=
  match d with
  | JObj members => Ok (JObj (dict_setitem members k v))
  | _ => Raise TypeError
  end.

(** One entry of [token_list] in [handle_get_tokens]; the entries of the
    dict display are evaluated in order and only the last can raise. *)
Definition summary (token_info : dict) : result dict :=
  let user_name := dict_get token_info "user_name" JNull in
  let user_email := dict_get token_info "user_email" JNull in
  let last_updated := dict_get token_info "last_updated" JNull in
  let status := dict_get token_info "status" JNull in
  let transport := dict_get token_info "transport" (JStr "unknown") in
  match
    (if truthy (dict_get token_info "token" JNull)
     then slice8_plus_dots (dict_get token_info "token" (JStr ""))
     else Ok (JStr ""))
  with
  | Ok token_preview =>
      Ok [("user_name", user_name);
          ("user_email", user_email);
          ("last_updated", last_updated);
          ("status", status);
          ("transport", transport);
          ("token_preview", token_preview)]
  | Raise e => Raise e
  end.

(** The loop of [handle_get_tokens] over [self.tokens.values()]. *)
Fixpoint token_list (values : list dict) (acc : list dict) : result (list dict) :=
  match values with
  | [] => Ok acc
  | token_info :: values' =>
      match summary token_info with
      | Ok entry => token_list values' (acc ++ [entry])
      | Raise e => Raise e
      end
  end.

Section Methods.

Variable W : world.

(** [handle_token_update] (hybrid_server.py 140-174) *)
Definition handle_token_update (data : json) (transport : string) : M unit :=
  access_token <- lift (get data "accessToken" JNull) ;;
  if negb (truthy access_token) then
    logger WARNING "token update without accessToken" [JStr transport]
  else
    user_info <- lift (get data "user" (JObj [])) ;;
    user_name <- lift (get user_info "name" (JStr "unknown")) ;;
    user_email <- lift (get user_info "email" (JStr "unknown")) ;;
    expires <- lift (get data "expires" JNull) ;;
    status <- lift (get data "status" (JStr "active")) ;;
    last_updated <- now_isoformat W ;;
    tokens_setitem access_token
      [("token", access_token);
       ("user_name", user_name);
       ("user_email", user_email);
       ("expires", expires);
       ("status", status);
       ("last_updated", last_updated);
       ("transport", JStr transport);
       ("raw_data", data)] ;;
    logger INFO "token update received" [JStr transport; user_name; user_email] ;;
    token_length <- lift (len access_token) ;;
    logger INFO "token length" [JInt token_length] ;;
    count <- len_tokens ;;
    logger INFO "token count" [JInt count] ;;
    timestamp <- now_isoformat W ;;
    total_tokens <- len_tokens ;;
    broadcast W (JObj [("type", JStr "token_received");
                       ("user", user_name);
                       ("timestamp", timestamp);
                       ("total_tokens", JInt total_tokens);
                       ("transport", JStr transport)]).

(** The dispatch of [handle_message] on [type], inside its [try]. *)
Definition dispatch (websocket : conn) (message : frame) : M unit :=
  data <- lift (json_loads message) ;;
  msg_type <- lift (get data "type" JNull) ;;
  if eq_str msg_type "connection" then
    client <- lift (get data "client" (JStr "unknown")) ;;
    logger INFO "connection confirmed" [client] ;;
    timestamp <- now_isoformat W ;;
    send_message W websocket
      (JObj [("type", JStr "welcome");
             ("message", JStr "WebSocket服务器连接成功");
             ("timestamp", timestamp);
             ("server_version", JStr "1.0.0")])
  else if eq_str msg_type "token_update" then
    handle_token_update data "websocket"
  else if eq_str msg_type "token_error" then
    handle_token_error data
  else if eq_str msg_type "heartbeat" then
    timestamp <- now_isoformat W ;;
    send_message W websocket
      (JObj [("type", JStr "pong"); ("timestamp", timestamp)])
  else if eq_str msg_type "pong" then
    ret tt
  else
    logger WARNING "unknown message type" [msg_type].

(** [handle_message] (hybrid_server.py 96-138) *)
Definition handle_message (websocket : conn) (message : frame) : M unit :=
  try_except (dispatch websocket message)
    (fun e =>
       match e with
       | JSONDecodeError => logger ERROR "message parse failed" [JStr (exn_str W e)]
       | _ => logger ERROR "message handling failed" [JStr (exn_str W e)]
       end).

(** The [try] block of [handle_http_token]; [request] is the body as
    [await request.json()] sees it. *)
Definition http_token_try (request : frame) : M response :=
  data <- lift (json_loads request) ;;
  access_token <- lift (get data "accessToken" JNull) ;;
  if negb (truthy access_token) then
    ret (json_response [("status", JStr "error");
                        ("message", JStr "Missing accessToken field")] 400)
  else
    data <- lift (setitem data "transport" (JStr "http")) ;;
    handle_token_update data "http" ;;
    timestamp <- now_isoformat W ;;
    ret (json_response [("status", JStr "success");
                        ("message", JStr "Token received successfully");
                        ("timestamp", timestamp)] 200).

(** The [except] clauses of [handle_http_token]. *)
Definition http_token_except (e : exn) : M response :=
  match e with
  | JSONDecodeError =>
      ret (json_response [("status", JStr "error");
                          ("message", JStr "Invalid JSON format")] 400)
  | _ =>
      logger ERROR "http token handling failed" [JStr (exn_str W e)] ;;
      ret (json_response
             [("status", JStr "error");
              ("message", JStr ("Internal server error: " +:+ exn_str W e))] 500)
  end.

(** [handle_http_token] (hybrid_server.py 236-270) *)
Definition handle_http_token (request : frame) : M response :=
  try_except (http_token_try request) http_token_except.

(** [handle_get_tokens] (hybrid_server.py 283-302) *)
Definition handle_get_tokens : M response :=
  fun st =>
    (entries <- lift (token_list (map snd (tokens st)) []) ;;
     timestamp <- now_isoformat W ;;
     ret (json_response [("status", JStr "success");
                         ("count", JInt (Z.of_nat (length entries)));
                         ("tokens", JArr (map JObj entries));
                         ("timestamp", timestamp)] 200)) st.

End Methods.

(** *** Starting the two listeners *)

(** What the runtime decides when the service starts. *)
Record runtime : Type := Runtime {
  WEBSOCKETS_AVAILABLE : bool;
  AIOHTTP_AVAILABLE : bool;
  serve_raises : bool;         (* [await websockets.serve(...)] raises *)
  runner_setup_raises : bool;  (* [await self.runner.setup()] raises *)
  site_start_raises : bool     (* [await self.site.start()] raises *)
}.

(** The attributes [start] and [start_http_server] assign; [true] stands
    for an attribute that is not [None].  [http_listening] is the listener
    itself: [site.start()] has returned. *)
Record listeners : Type := Listeners {
  websocket_server : bool;
  app : bool;
  runner : bool;
  site : bool;
  http_listening : bool;
  is_running : bool;
  journal : list log_record
}.

Definition stopped : listeners :=
  {| websocket_server := false; app := false; runner := false; site := false;
     http_listening := false; is_running := false; journal := [] |}.

Definition note (lvl : level) (what : string) (l : listeners) : listeners :=
  {| websocket_server := websocket_server l; app := app l; runner := runner l;
     site := site l; http_listening := http_listening l;
     is_running := is_running l;
     journal := journal l ++ [LogRecord lvl what []] |}.

(** [start_http_server] (hybrid_server.py 209-227) *)
Definition start_http_server (R : runtime) (l : listeners) : listeners :=
  if negb (AIOHTTP_AVAILABLE R) then
    note WARNING "aiohttp not installed, HTTP server cannot start" l
  else
    let l1 :=
      {| websocket_server := websocket_server l; app := true; runner := true;
         site := site l; http_listening := http_listening l;
         is_running := is_running l; journal := journal l |} in
    if runner_setup_raises R then note ERROR "HTTP server failed to start" l1
    else
      let l2 :=
        {| websocket_server := websocket_server l1; app := app l1;
           runner := runner l1; site := true;
           http_listening := http_listening l1;
           is_running := is_running l1; journal := journal l1 |} in
      if site_start_raises R then note ERROR "HTTP server failed to start" l2
      else
        note INFO "HTTP server started"
          {| websocket_server := websocket_server l2; app := app l2;
             runner := runner l2; site := site l2; http_listening := true;
             is_running := is_running l2; journal := journal l2 |}.

(** [start] (hybrid_server.py 38-64); the result is the returned flag. *)
Definition start (R : runtime) (l : listeners) : listeners * bool :=
  if negb (WEBSOCKETS_AVAILABLE R) then
    (note ERROR "cannot start: websockets not installed" l, false)
  else if serve_raises R then
    (note ERROR "hybrid server failed to start" l, false)
  else
    let l1 :=
      {| websocket_server := true; app := app l; runner := runner l;
         site := site l; http_listening := http_listening l;
         is_running := is_running l; journal := journal l |} in
    let l2 := if AIOHTTP_AVAILABLE R then start_http_server R l1 else l1 in
    let l3 :=
      {| websocket_server := websocket_server l2; app := app l2;
         runner := runner l2; site := site l2;
         http_listening := http_listening l2;
         is_running := true; journal := journal l2 |} in
    (note INFO "health check endpoint"
       (note INFO "HTTP endpoint"
          (note INFO "WebSocket endpoint"
             (note INFO "hybrid server started" l3))), true).

End Hybrid.

(** ** Vocabulary of the properties *)

(** The sends one pass of [broadcast] makes to [members], the first of
    them being the [k]-th send of the run. *)
Fixpoint sends (W : world) (k : nat) (message : json) (members : list conn)
  : list attempt :=
  match members with
  | [] => []
  | c :: members' =>
      Attempt c message (negb (send_raises W k c)) :: sends W (S k) message members'
  end.

Definition failed (attempts : list attempt) : list conn :=
  map target (filter (fun a => negb (delivered a)) attempts).

(** [token in text] on strings *)
Fixpoint includes (text token : string) : bool :=
  String.prefix token text ||
  match text with
  | EmptyString => false
  | String _ text' => includes text' token
  end.

(** A listing entry shows [token] in full when one of its fields is a
    string in which [token] occurs. *)
Definition shows (entry : dict) (token : string) : Prop :=
  exists field text,
    dict_lookup entry field = Some (JStr text) /\ includes text token = true.

(** The listing of [st] as the first claim words it: no entry shows the
    token of a stored record, and a token of 8 characters or more is
    previewed by its first 8 characters and an ellipsis. *)
Definition listing_redacts (W : world) (st : server) : Prop :=
  forall st' answer entries,
    Hybrid.handle_get_tokens W st = (st', Ok answer) ->
    dict_lookup (Hybrid.body answer) "tokens" = Some (JArr (map JObj entries)) ->
    forall i info entry token,
      get_all_token_info st !! i = Some info ->
      entries !! i = Some entry ->
      dict_lookup info "token" = Some (JStr token) ->
      ~ shows entry token /\
      (8 <= String.length token ->
       dict_lookup entry "token_preview" = Some (JStr (str_take 8 token +:+ "..."))).

(** What the listing tells of a record [info] that holds [token]: the five
    fields it copies, and the preview. *)
Definition summary_of (info : dict) (token : string) (entry : dict) : Prop :=
  map fst entry =
    ["user_name"; "user_email"; "last_updated"; "status"; "transport";
     "token_preview"] /\
  dict_lookup entry "user_name" = Some (dict_get info "user_name" JNull) /\
  dict_lookup entry "user_email" = Some (dict_get info "user_email" JNull) /\
  dict_lookup entry "last_updated" = Some (dict_get info "last_updated" JNull) /\
  dict_lookup entry "status" = Some (dict_get info "status" JNull) /\
  dict_lookup entry "transport" = Some (dict_get info "transport" (JStr "unknown")) /\
  (8 <= String.length token ->
   dict_lookup entry "token_preview" = Some (JStr (str_take 8 token +:+ "..."))) /\
  (11 < String.length token ->
   forall text, dict_lookup entry "token_preview" = Some (JStr text) ->
                includes text token = false).

Definition holds_string_token (info : dict) : Prop :=
  exists token, dict_lookup info "token" = Some (JStr token).

(** A dict without its ["transport"] entry. *)
Definition without_transport (d : dict) : dict :=
  filter (fun kv => negb (String.eqb (fst kv) "transport")) d.

Definition legacy_payload (message : json) : json :=
  match message with
  | JObj d => JObj (without_transport d)
  | _ => message
  end.

Definition legacy_attempt (a : attempt) : attempt :=
  Attempt (target a) (legacy_payload (payload a)) (delivered a).

Definition legacy_registry (r : registry) : registry :=
  map (fun kv => (fst kv, without_transport (snd kv))) r.

(** The dual-transport state read as the bidirectional-only class keeps
    it: records and outbound messages lose ["transport"], and the log,
    whose wording differs, is set aside. *)
Definition legacy_view (st : server) : server :=
  {| connected_clients := connected_clients st;
     tokens := legacy_registry (tokens st);
     clock := clock st;
     wire := map legacy_attempt (wire st);
     log := [] |}.

Definition forget_log (st : server) : server :=
  {| connected_clients := connected_clients st; tokens := tokens st;
     clock := clock st; wire := wire st; log := [] |}.

(** [h], a state of the dual-transport class, and [l], a state of the
    bidirectional-only class, hold the same service. *)
Definition same_service (h l : server) : Prop :=
  forget_log l = legacy_view h.

(** Two coroutines, one of each class, that keep the two states in step
    and end alike. *)
Definition in_step {A} (mh ml : M A) : Prop :=
  forall h l,
    same_service h l ->
    same_service (fst (mh h)) (fst (ml l)) /\ snd (mh h) = snd (ml l).


(** The [user] object of a report: absent counts as empty. *)
Definition user_of (d : dict) : option dict :=
  match dict_lookup d "user" with
  | None => Some []
  | Some (JObj u) => Some u
  | Some _ => None
  end.

(** The record [handle_token_update] stores for a well-formed report. *)
Definition stored_record (W : world) (d u : dict) (token transport : string)
    (k : nat) : dict :=
  [("token", JStr token);
   ("user_name", dict_get u "name" (JStr "unknown"));
   ("user_email", dict_get u "email" (JStr "unknown"));
   ("expires", dict_get d "expires" JNull);
   ("status", dict_get d "status" (JStr "active"));
   ("last_updated", JStr (isoformat W k));
   ("transport", JStr transport);
   ("raw_data", JObj d)].

(** The bidirectional listener failing does not keep the HTTP listener
    from running: whenever nothing stops the HTTP listener itself, it is
    up after [start]. *)
Definition http_survives (R : Hybrid.runtime) : Prop :=
  Hybrid.AIOHTTP_AVAILABLE R = true ->
  Hybrid.runner_setup_raises R = false ->
  Hybrid.site_start_raises R = false ->
  Hybrid.http_listening (fst (Hybrid.start R Hybrid.stopped)) = true.

(** ** Sample environments and states *)

(** A world in which every send goes through. *)
Definition calm : world :=
  {| isoformat := fun _ => "2025-01-01T00:00:00";
     send_raises := fun _ _ => false;
     exn_str := fun _ => "error" |}.

(** A world in which every send raises. *)
Definition stormy : world :=
  {| isoformat := fun _ => "2025-01-01T00:00:00";
     send_raises := fun _ _ => true;
     exn_str := fun _ => "error" |}.

(** A world in which the sends to connection 2 raise. *)
Definition patchy : world :=
  {| isoformat := fun _ => "2025-01-01T00:00:00";
     send_raises := fun _ c => Nat.eqb c 2;
     exn_str := fun _ => "error" |}.

Definition report (token : string) : json :=
  JObj [("type", JStr "token_update"); ("accessToken", JStr token)].

(** The state after one report of [token] over HTTP. *)
Definition after_report (token : string) : server :=
  fst (Hybrid.handle_http_token calm
         (Parsed (JObj [("accessToken", JStr token)])) init).

Definition three_clients : server :=
  {| connected_clients := {[1; 2; 3]}; tokens := []; clock := 0;
     wire := []; log := [] |}.

(** The runtime in which the port is taken when [websockets.serve] asks
    for it, while nothing would stop the HTTP listener. *)
Definition port_taken : Hybrid.runtime :=
  {| Hybrid.WEBSOCKETS_AVAILABLE := true; Hybrid.AIOHTTP_AVAILABLE := true;
     Hybrid.serve_raises := true; Hybrid.runner_setup_raises := false;
     Hybrid.site_start_raises := false |}.

(** The runtime without aiohttp. *)
Definition no_aiohttp : Hybrid.runtime :=
  {| Hybrid.WEBSOCKETS_AVAILABLE := true; Hybrid.AIOHTTP_AVAILABLE := false;
     Hybrid.serve_raises := false; Hybrid.runner_setup_raises := false;
     Hybrid.site_start_raises := false |}.

(** One client connects and reports a token. *)
Definition one_report : list event :=
  [Connect 1; Receive 1 (Parsed (report "abc123xyz789"))].

(** No two entries of the registry have keys that Python holds equal. *)
Fixpoint distinct_keys (r : registry) : Prop :=
  match r with
  | [] => True
  | (k, _) :: r' => registry_lookup r' k = None /\ distinct_keys r'
  end.


Definition is_object (v : json) : bool :=
  match v with
  | JObj _ => true
  | _ => false
  end.

(** The frame is a [token_update] message. *)
Definition is_token_update (message : frame) : Prop :=
  exists d, message = Parsed (JObj d) /\
            dict_lookup d "type" = Some (JStr "token_update").


(** A record as [handle_token_update] files it under key [k]: it carries
    the reported token, which Python holds equal to [k], and the transport
    it came by. *)
Definition filed_under (k : json) (info : dict) : Prop :=
  exists token transport,
    dict_lookup info "token" = Some token /\
    key_eqb k token = true /\
    truthy token = true /\
    dict_lookup info "transport" = Some (JStr transport) /\
    (transport = "websocket" \/ transport = "http").

(** The registry holds one record per key, each filed under its key. *)
Definition sound_registry (r : registry) : Prop :=
  distinct_keys r /\ Forall (fun kv => filed_under (fst kv) (snd kv)) r.

(** What can be asked of a running dual-transport service. *)
Inductive call : Type :=
| Websocket (ev : event)
| PostToken (request : frame)
| GetTokens
| RemoveToken (token : string)
| ClearTokens
| RequestRefresh.

Definition perform (W : world) (c : call) (st : server) : server :=
  match c with
  | Websocket ev => fst (react (Hybrid.handle_message W) ev st)
  | PostToken request => fst (Hybrid.handle_http_token W request st)
  | GetTokens => fst (Hybrid.handle_get_tokens W st)
  | RemoveToken token => fst (remove_token token st)
  | ClearTokens => fst (clear_tokens st)
  | RequestRefresh => fst (request_token_refresh W st)
  end.

Definition perform_all (W : world) (calls : list call) (st : server) : server :=
  fold_left (fun st c => perform W c st) calls st.


(** What a call of [handle_token_update] may have done. *)
Definition report_footprint (W : world) (transport : string) (st after : server)
  : Prop :=
  (tokens after = tokens st \/
   exists k info,
     hashable k = true /\ truthy k = true /\
     dict_lookup info "token" = Some k /\
     dict_lookup info "transport" = Some (JStr transport) /\
     tokens after = registry_store (tokens st) k info) /\
  (forall c, c ∈ connected_clients after -> c ∈ connected_clients st) /\
  (forall c, c ∈ connected_clients st ->
             (forall j, send_raises W j c = false) ->
             c ∈ connected_clients after).

(** The frames that are not [token_update] messages: the registry and the
    connection set are as before, and at most one message is sent, to the
    sender. *)
Definition quiet_step (websocket : conn) (st : server)
    (outcome : server * result unit) : Prop :=
  snd outcome = Ok tt /\
  tokens (fst outcome) = tokens st /\
  connected_clients (fst outcome) = connected_clients st /\
  (wire (fst outcome) = wire st \/
   exists reply ok, wire (fst outcome) = wire st ++ [Attempt websocket reply ok]).

(** *** The module-level instance of [hybrid_server.py] *)

Module HybridGlobals.

(** A [TokenHybridServer]: its port, its registry and connections, its
    listeners. *)
Record instance : Type := Instance {
  port : Z;
  service : server;
  sockets : Hybrid.listeners
}.

(** [TokenHybridServer(port)] *)
Definition TokenHybridServer (port : Z) : instance :=
  {| port := port; service := init; sockets := Hybrid.stopped |}.

(** [_global_hybrid_server]: [None] or the instance. *)
Definition global : Type := option instance.

(** [get_hybrid_server] (hybrid_server.py 359-364) *)
Definition get_hybrid_server (port : Z) (g : global) : global * instance :=
  match g with
  | None => (Some (TokenHybridServer port), TokenHybridServer port)
  | Some i => (g, i)
  end.

(** [start_hybrid_server] (hybrid_server.py 367-370) *)
Definition start_hybrid_server (R : Hybrid.runtime) (port : Z) (g : global)
  : global * bool :=
  let (_, i) := get_hybrid_server port g in
  let (l, started) := Hybrid.start R (sockets i) in
  (Some {| port := HybridGlobals.port i; service := service i; sockets := l |},
   started).

(** [is_hybrid_server_running] (hybrid_server.py 381-384) *)
Definition is_hybrid_server_running (g : global) : bool :=
  match g with
  | None => false
  | Some i => Hybrid.is_running (sockets i)
  end.

(** [get_auto_tokens] (hybrid_server.py 387-392) *)
Definition get_auto_tokens (g : global) : list json :=
  match g with
  | Some i => get_tokens (service i)
  | None => []
  end.

(** [get_auto_token_info] (hybrid_server.py 395-400) *)
Definition get_auto_token_info (g : global) : list dict :=
  match g with
  | Some i => get_all_token_info (service i)
  | None => []
  end.

End HybridGlobals.


(** ** [broadcast] among other connections

    [broadcast] iterates the live set [self.connected_clients] and awaits
    a send at every step.  While a send is awaited the [handle_client] of
    another connection may run: a new connection is accepted and added to
    the set, or a connection ends and its [finally] removes it.  The
    iterator of a Python set raises [RuntimeError] at its next step when
    the size of the set is no longer the one it had when the loop began.
    The methods above take a pass of [broadcast] as undisturbed; the ones
    of [Live] have the same text and take what the other connections do
    at each await from a [schedule]. *)

Inductive meanwhile : Type :=
| Undisturbed
| Accepted (c : conn)
| Finished (c : conn).

(** What happens while the k-th send of the run is awaited. *)
Definition schedule : Type := nat -> meanwhile.


Definition disturb (m : meanwhile) (clients : gset conn) : gset conn :=
  match m with
  | Undisturbed => clients
  | Accepted c => clients ∪ {[c]}
  | Finished c => clients ∖ {[c]}
  end.


Module Live.
Section Methods.

Variable W : world.
Variable Others : schedule.

(** [await client.send(json.dumps(message))], with what the other
    connections do meanwhile. *)
Definition client_send (c : conn) (message : json) : M unit :=
  fun st =>
    let fails := send_raises W (length (wire st)) c in
    ({| connected_clients :=
          disturb (Others (length (wire st))) (connected_clients st);
        tokens := tokens st;
        clock := clock st;
        wire := wire st ++ [Attempt c message (negb fails)];
        log := log st |},
     if fails then Raise ConnectionClosed else Ok tt).

(** The body of the first loop of [broadcast]. *)
Definition broadcast_send (message : json) (disconnected : list conn) (client : conn)
  : M (list conn) :=
  try_except (client_send client message ;; ret disconnected)
             (fun _ => ret (disconnected ++ [client])).

(** [for client in self.connected_clients: ...] over [remaining]: every
    step of the set iterator, the last one included, first compares the
    size of the set with [size0], the size it had when the loop began. *)
Fixpoint sending_loop (message : json) (size0 : nat) (remaining : list conn)
    (disconnected : list conn) : M (list conn) :=
  fun st =>
    if Nat.eqb (size (connected_clients st)) size0 then
      match remaining with
      | [] => (st, Ok disconnected)
      | client :: remaining' =>
          (disconnected' <- broadcast_send message disconnected client ;;
           sending_loop message size0 remaining' disconnected') st
      end
    else (st, Raise RuntimeError).

(** [broadcast] (hybrid_server.py 192-206, websocket_server.py 162-176) *)
Definition broadcast (message : json) : M unit :=
  fun st =>
    if decide (connected_clients st = ∅) then (st, Ok tt)
    else
      (disconnected <- sending_loop message (size (connected_clients st))
                         (elements (connected_clients st)) [] ;;
       for_each broadcast_prune disconnected tt) st.

(** [handle_token_update] (hybrid_server.py 140-174) *)
Definition handle_token_update (data : json) (transport : string) : M unit :=
  access_token <- lift (get data "accessToken" JNull) ;;
  if negb (truthy access_token) then
    logger WARNING "token update without accessToken" [JStr transport]
  else
    user_info <- lift (get data "user" (JObj [])) ;;
    user_name <- lift (get user_info "name" (JStr "unknown")) ;;
    user_email <- lift (get user_info "email" (JStr "unknown")) ;;
    expires <- lift (get data "expires" JNull) ;;
    status <- lift (get data "status" (JStr "active")) ;;
    last_updated <- now_isoformat W ;;
    tokens_setitem access_token
      [("token", access_token);
       ("user_name", user_name);
       ("user_email", user_email);
       ("expires", expires);
       ("status", status);
       ("last_updated", last_updated);
       ("transport", JStr transport);
       ("raw_data", data)] ;;
    logger INFO "token update received" [JStr transport; user_name; user_email] ;;
    token_length <- lift (len access_token) ;;
    logger INFO "token length" [JInt token_length] ;;
    count <- len_tokens ;;
    logger INFO "token count" [JInt count] ;;
    timestamp <- now_isoformat W ;;
    total_tokens <- len_tokens ;;
    broadcast (JObj [("type", JStr "token_received");
                     ("user", user_name);
                     ("timestamp", timestamp);
                     ("total_tokens", JInt total_tokens);
                     ("transport", JStr transport)]).

(** The [try] block of [handle_http_token]. *)
Definition http_token_try (request : frame) : M Hybrid.response :=
  data <- lift (json_loads request) ;;
  access_token <- lift (get data "accessToken" JNull) ;;
  if negb (truthy access_token) then
    ret (Hybrid.json_response [("status", JStr "error");
                               ("message", JStr "Missing accessToken field")] 400)
  else
    data <- lift (Hybrid.setitem data "transport" (JStr "http")) ;;
    handle_token_update data "http" ;;
    timestamp <- now_isoformat W ;;
    ret (Hybrid.json_response [("status", JStr "success");
                               ("message", JStr "Token received successfully");
                               ("timestamp", timestamp)] 200).

(** [handle_http_token] (hybrid_server.py 236-270) *)
Definition handle_http_token (request : frame) : M Hybrid.response :=
  try_except (http_token_try request) (Hybrid.http_token_except W).

(** [request_token_refresh] (hybrid_server.py 345-352) *)
Definition request_token_refresh : M unit :=
  timestamp <- now_isoformat W ;;
  broadcast (JObj [("type", JStr "request_token");
                   ("message", JStr "服务器请求刷新Token");
                   ("timestamp", timestamp)]) ;;
  logger INFO "token refresh requested" [].

End Methods.
End Live.




(** While the first send of the run is awaited, connection 4 is accepted. *)
Definition accept_during_first_send : schedule :=
  fun k => match k with 0 => Accepted 4 | _ => Undisturbed end.


(** ** The registry *)

Lemma key_eqb_str (s : string) (k : json) :
  key_eqb (JStr s) k = true <-> k = JStr s.
Proof.
  destruct k; unfold key_eqb; split; try congruence.
  - intros H. apply String.eqb_eq in H. congruence.
  - intros [= ->]. apply String.eqb_refl.
Qed.

Lemma registry_lookup_absent (r : registry) (token : string) :
  JStr token ∉ map fst r -> registry_lookup r (JStr token) = None.
Proof.
  induction r as [|[k v] r IH]; cbn [registry_lookup map fst];
    intros Hnot; [reflexivity|].
  destruct (key_eqb (JStr token) k) eqn:E.
  - apply key_eqb_str in E. subst k. exfalso. apply Hnot. left.
  - apply IH. intros Hin. apply Hnot. right. exact Hin.
Qed.

Lemma registry_lookup_store (r : registry) (token : string) (v : dict) :
  registry_lookup (registry_store r (JStr token) v) (JStr token) = Some v.
Proof.
  induction r as [|[k v0] r IH]; cbn [registry_store registry_lookup].
  - rewrite (proj2 (key_eqb_str token _) eq_refl). reflexivity.
  - destruct (key_eqb (JStr token) k) eqn:E; cbn [registry_lookup];
      rewrite E; auto.
Qed.

(** C10. A token that is not among the keys of the registry is answered
    by [get_token_info] with the empty dict, and so is a token stored with
    an empty record: the two answers are the same value. *)
Theorem get_token_info_unknown (st : server) (token : string) :
  JStr token ∉ get_tokens st ->
  get_token_info st token = [] /\
  get_token_info
    {| connected_clients := connected_clients st;
       tokens := registry_store (tokens st) (JStr token) [];
       clock := clock st; wire := wire st; log := log st |} token
  = get_token_info st token.
Proof.
  intros Habsent. unfold get_token_info, get_tokens in *. simpl.
  rewrite registry_lookup_store.
  rewrite (registry_lookup_absent _ _ Habsent). split; reflexivity.
Qed.

Lemma get_token_info_unknown_witness :
  (JStr "zzz" ∉ get_tokens (after_report "abc123xyz789")) /\
  get_token_info (after_report "abc123xyz789") "zzz" = [].
Proof.
  assert (H : JStr "zzz" ∉ get_tokens (after_report "abc123xyz789")).
  { vm_compute. intros Hin. inversion Hin as [|? ? ? Hin']; subst.
    inversion Hin'. }
  split; [exact H|].
  exact (proj1 (get_token_info_unknown _ "zzz" H)).
Defined.

(** C5, as the code has it. [clear_tokens] empties the registry, leaves the
    connections alone, writes the number of records it removed to the log,
    and returns [None]. *)
Theorem clear_tokens_empties (st : server) :
  let after := fst (clear_tokens st) in
  tokens after = [] /\
  get_tokens after = [] /\
  connected_clients after = connected_clients st /\
  log after =
    log st ++ [LogRecord INFO "all tokens cleared"
                 [JInt (Z.of_nat (length (tokens st)))]] /\
  snd (clear_tokens st) = Ok JNull.
Proof.
  unfold clear_tokens, bind, len_tokens, set_tokens, logger, ret. simpl.
  repeat split; reflexivity.
Qed.

(** C5 as worded fails: with one record stored the call does not return 1. *)
Lemma clear_tokens_returns_no_count :
  length (tokens (after_report "abc123xyz789")) = 1 /\
  snd (clear_tokens (after_report "abc123xyz789")) <> Ok (JInt 1).
Proof.
  split; [vm_compute; reflexivity|].
  vm_compute. discriminate.
Qed.

(** ** One pass of [broadcast] *)

Lemma server_eta (st : server) :
  {| connected_clients := connected_clients st; tokens := tokens st;
     clock := clock st; wire := wire st; log := log st |} = st.
Proof. destruct st; reflexivity. Qed.



Lemma failed_members (W : world) (message : json) (members : list conn) :
  forall (k : nat) (c : conn),
    c ∈ failed (sends W k message members) -> c ∈ members.
Proof.
  induction members as [|c0 members IH]; intros k c; unfold failed; simpl.
  - intros H. inversion H.
  - destruct (send_raises W k c0); simpl.
    + intros H. apply elem_of_cons in H as [->|H]; [left|right].
      exact (IH _ _ H).
    + intros H. right. exact (IH _ _ H).
Qed.

Lemma failed_NoDup (W : world) (message : json) (members : list conn) :
  forall k : nat, NoDup members -> NoDup (failed (sends W k message members)).
Proof.
  induction members as [|c0 members IH]; intros k Hnd; unfold failed; simpl.
  - constructor.
  - apply NoDup_cons in Hnd as [Hnotin Hnd].
    destruct (send_raises W k c0); simpl.
    + constructor; [|exact (IH _ Hnd)].
      intros Hin. apply Hnotin. exact (failed_members _ _ _ _ _ Hin).
    + exact (IH _ Hnd).
Qed.

Lemma failed_spec (W : world) (message : json) (members : list conn) :
  forall (k : nat) (c : conn),
    c ∈ failed (sends W k message members) <->
    exists a, a ∈ sends W k message members /\ target a = c /\ delivered a = false.
Proof.
  intros k c. unfold failed. rewrite list_elem_of_fmap. split.
  - intros (a & -> & Ha). apply list_elem_of_filter in Ha as [Hd Ha].
    exists a. repeat split; [exact Ha|]. destruct (delivered a); done.
  - intros (a & Ha & <- & Hd). exists a. split; [reflexivity|].
    apply list_elem_of_filter. split; [|exact Ha]. rewrite Hd. done.
Qed.

(** The first loop: every member is tried in turn, whatever happened to
    the members before it; nothing but the wire changes. *)
Lemma first_loop (W : world) (message : json) (members : list conn) :
  forall (acc : list conn) (st : server),
    for_each (broadcast_send W message) members acc st =
    ({| connected_clients := connected_clients st; tokens := tokens st;
        clock := clock st;
        wire := wire st ++ sends W (length (wire st)) message members;
        log := log st |},
     Ok (acc ++ failed (sends W (length (wire st)) message members))).
Proof.
  induction members as [|c members IH]; intros acc st.
  - simpl. unfold ret, failed. simpl. rewrite !app_nil_r, server_eta. reflexivity.
  - cbn [for_each sends]. unfold bind at 1.
    unfold broadcast_send at 1, try_except, bind, websocket_send, ret.
    destruct (send_raises W (length (wire st)) c) eqn:E; cbn [negb];
      rewrite IH; cbn [connected_clients tokens clock wire log];
      rewrite length_app, Nat.add_1_r, <- !app_assoc; unfold failed; simpl;
      rewrite <- ?app_assoc; reflexivity.
Qed.

(** The second loop: the members whose send raised are taken out, none of
    the removals raising. *)
Lemma second_loop (gone : list conn) :
  forall st : server,
    NoDup gone ->
    (forall c, c ∈ gone -> c ∈ connected_clients st) ->
    for_each broadcast_prune gone tt st =
    ({| connected_clients := connected_clients st ∖ list_to_set gone;
        tokens := tokens st; clock := clock st; wire := wire st;
        log := log st |}, Ok tt).
Proof.
  induction gone as [|c gone IH]; intros st Hnd Hin.
  - simpl. unfold ret. f_equal. rewrite <- (server_eta st) at 1. f_equal.
    set_solver.
  - apply NoDup_cons in Hnd as [Hnotin Hnd].
    cbn [for_each]. unfold bind at 1. unfold broadcast_prune at 1, clients_remove.
    destruct (decide (c ∈ connected_clients st)) as [_|Hno];
      [|exfalso; apply Hno, Hin; left].
    rewrite IH; [| exact Hnd |].
    + cbn [connected_clients tokens clock wire log]. do 2 f_equal. set_solver.
    + intros c' Hc'. cbn [connected_clients].
      apply elem_of_difference. split; [apply Hin; right; exact Hc'|].
      intros Heq. apply elem_of_singleton in Heq. subst c'. contradiction.
Qed.

(** [broadcast] as a whole. *)
Lemma broadcast_pass (W : world) (message : json) (st : server) :
  let tried := sends W (length (wire st)) message (elements (connected_clients st)) in
  broadcast W message st =
  ({| connected_clients := connected_clients st ∖ list_to_set (failed tried);
      tokens := tokens st; clock := clock st;
      wire := wire st ++ tried; log := log st |}, Ok tt).
Proof.
  intros tried. unfold broadcast.
  destruct (decide (connected_clients st = ∅)) as [Hempty|Hsome].
  - subst tried. rewrite Hempty, elements_empty. simpl.
    rewrite app_nil_r. f_equal. rewrite <- (server_eta st) at 1. f_equal.
    rewrite Hempty. set_solver.
  - unfold bind. rewrite first_loop. cbn [app].
    rewrite second_loop.
    + reflexivity.
    + apply failed_NoDup, NoDup_elements.
    + intros c Hc. cbn [connected_clients].
      apply elem_of_elements. exact (failed_members _ _ _ _ _ Hc).
Qed.

(** ** Token reports *)

Lemma truthy_nonempty (s : string) : s <> "" -> truthy (JStr s) = true.
Proof. destruct s; simpl; congruence. Qed.

Lemma user_of_get (d u : dict) :
  user_of d = Some u -> dict_get d "user" (JObj []) = JObj u.
Proof.
  unfold user_of, dict_get. destruct (dict_lookup d "user") as [[]|];
    congruence.
Qed.

(** What a well-formed report does, step by step. *)
Lemma handle_token_update_stores (W : world) (d u : dict)
    (token transport : string) (st : server) :
  dict_lookup d "accessToken" = Some (JStr token) ->
  token <> "" ->
  user_of d = Some u ->
  let stored :=
    registry_store (tokens st) (JStr token)
      (stored_record W d u token transport (clock st)) in
  let announcement :=
    JObj [("type", JStr "token_received");
          ("user", dict_get u "name" (JStr "unknown"));
          ("timestamp", JStr (isoformat W (S (clock st))));
          ("total_tokens", JInt (Z.of_nat (length stored)));
          ("transport", JStr transport)] in
  let tried :=
    sends W (length (wire st)) announcement (elements (connected_clients st)) in
  Hybrid.handle_token_update W (JObj d) transport st =
  ({| connected_clients := connected_clients st ∖ list_to_set (failed tried);
      tokens := stored;
      clock := S (S (clock st));
      wire := wire st ++ tried;
      log := log st ++
        [LogRecord INFO "token update received"
           [JStr transport; dict_get u "name" (JStr "unknown");
            dict_get u "email" (JStr "unknown")];
         LogRecord INFO "token length" [JInt (Z.of_nat (String.length token))];
         LogRecord INFO "token count" [JInt (Z.of_nat (length stored))]] |},
   Ok tt).
Proof.
  intros Htok Hne Huser stored announcement tried.
  unfold Hybrid.handle_token_update.
  unfold bind at 1. unfold lift at 1. cbn [get].
  assert (Hget : dict_get d "accessToken" JNull = JStr token)
    by (unfold dict_get; rewrite Htok; reflexivity).
  rewrite Hget, (truthy_nonempty _ Hne). cbn [negb].
  unfold bind, lift, now_isoformat, tokens_setitem, registry_setitem,
    set_tokens, logger, len_tokens. cbn [get].
  rewrite (user_of_get _ _ Huser).
  cbn [get hashable len tokens connected_clients clock wire log].
  rewrite broadcast_pass.
  cbn [tokens connected_clients clock wire log].
  subst tried announcement stored. unfold stored_record.
  rewrite <- !app_assoc. reflexivity.
Qed.

Lemma dict_get_found (d : dict) (k : string) (v default : json) :
  dict_lookup d k = Some v -> dict_get d k default = v.
Proof. unfold dict_get. intros ->. reflexivity. Qed.

(** C6. A [token_update] frame whose [accessToken] is missing, empty or
    otherwise false is dropped by both classes: the registry, the
    connection set, the clock and the wire (no reply, no broadcast) are as
    before, and the log has grown by one warning and nothing else. *)
Theorem token_update_without_token_is_dropped (W : world) (st : server)
    (websocket : conn) (d : dict) :
  dict_lookup d "type" = Some (JStr "token_update") ->
  truthy (dict_get d "accessToken" JNull) = false ->
  Hybrid.handle_message W websocket (Parsed (JObj d)) st =
    ({| connected_clients := connected_clients st; tokens := tokens st;
        clock := clock st; wire := wire st;
        log := log st ++
          [LogRecord WARNING "token update without accessToken"
             [JStr "websocket"]] |}, Ok tt) /\
  Legacy.handle_message W websocket (Parsed (JObj d)) st =
    ({| connected_clients := connected_clients st; tokens := tokens st;
        clock := clock st; wire := wire st;
        log := log st ++
          [LogRecord WARNING "token update without accessToken" []] |}, Ok tt).
Proof.
  intros Htype Hfalse. split.
  - unfold Hybrid.handle_message, try_except, Hybrid.dispatch.
    unfold bind at 1. unfold lift at 1, json_loads.
    unfold bind at 1. unfold lift at 1. cbn [get].
    rewrite (dict_get_found _ _ _ _ Htype).
    change (eq_str (JStr "token_update") "connection") with false.
    change (eq_str (JStr "token_update") "token_update") with true.
    cbv iota. unfold Hybrid.handle_token_update.
    unfold bind at 1. unfold lift at 1. cbn [get].
    rewrite Hfalse. reflexivity.
  - unfold Legacy.handle_message, try_except, Legacy.dispatch.
    unfold bind at 1. unfold lift at 1, json_loads.
    unfold bind at 1. unfold lift at 1. cbn [get].
    rewrite (dict_get_found _ _ _ _ Htype).
    change (eq_str (JStr "token_update") "connection") with false.
    change (eq_str (JStr "token_update") "token_update") with true.
    cbv iota. unfold Legacy.handle_token_update.
    unfold bind at 1. unfold lift at 1. cbn [get].
    rewrite Hfalse. reflexivity.
Qed.

Lemma token_update_without_token_is_dropped_witness :
  let frame := Parsed (JObj [("type", JStr "token_update"); ("accessToken", JStr "")]) in
  tokens (fst (Hybrid.handle_message calm 1 frame three_clients)) = [] /\
  wire (fst (Hybrid.handle_message calm 1 frame three_clients)) = [] /\
  wire (fst (Legacy.handle_message calm 1 frame three_clients)) = [].
Proof.
  intros frame.
  destruct (token_update_without_token_is_dropped calm three_clients 1
              [("type", JStr "token_update"); ("accessToken", JStr "")])
    as [Hh Hl]; [reflexivity | reflexivity |].
  subst frame. rewrite Hh, Hl. repeat split; reflexivity.
Defined.

(** ** Reports over HTTP *)

Lemma dict_lookup_setitem_ne (d : dict) (k k' : string) (v : json) :
  k <> k' -> dict_lookup (dict_setitem d k v) k' = dict_lookup d k'.
Proof.
  intros Hne. induction d as [|[k0 v0] d IH]; cbn [dict_setitem dict_lookup].
  - destruct (String.eqb_spec k' k); congruence.
  - destruct (String.eqb_spec k k0) as [->|Hk]; cbn [dict_lookup].
    + destruct (String.eqb_spec k' k0); congruence.
    + rewrite IH. reflexivity.
Qed.

Lemma user_of_setitem (d : dict) (v : json) :
  user_of (dict_setitem d "transport" v) = user_of d.
Proof. unfold user_of. rewrite dict_lookup_setitem_ne; done. Qed.

(** ** Leaving the connection set *)

(** C4, on the code: [set.remove] is not idempotent.  Whatever the set, a
    second removal of the same connection raises [KeyError]; and a
    connection that [broadcast] pruned after a failed send makes the
    [finally] of its own [handle_client] raise, in both classes. *)
Theorem second_removal_raises :
  (forall (st : server) (c : conn),
     snd (clients_remove c (fst (clients_remove c st))) = Raise KeyError) /\
  snd (handle_client (Hybrid.handle_message stormy) 1
         [Parsed (report "abc123xyz789")] false init) = Raise KeyError /\
  snd (handle_client (Legacy.handle_message stormy) 1
         [Parsed (report "abc123xyz789")] false init) = Raise KeyError.
Proof.
  split; [|split; vm_compute; reflexivity].
  intros st c. unfold clients_remove at 2.
  destruct (decide (c ∈ connected_clients st)) as [Hin|Hout]; cbn [fst].
  - unfold clients_remove. cbn [connected_clients].
    destruct (decide (c ∈ connected_clients st ∖ {[c]})) as [Hin'|_];
      [set_solver|reflexivity].
  - unfold clients_remove.
    destruct (decide (c ∈ connected_clients st)); [contradiction|reflexivity].
Qed.

(** ** Starting the listeners *)

(** C8, as the code has it.  Once [websockets.serve] has returned, [start]
    succeeds and the service runs whatever becomes of the HTTP listener
    (aiohttp missing, [runner.setup] or [site.start] raising); but when the
    websockets module is missing or [websockets.serve] raises, [start]
    returns [False] and no listener is touched: the HTTP listener is not
    started. *)
Theorem start_depends_on_websocket_only (R : Hybrid.runtime) (l : Hybrid.listeners) :
  (Hybrid.WEBSOCKETS_AVAILABLE R = true ->
   Hybrid.serve_raises R = false ->
   snd (Hybrid.start R l) = true /\
   Hybrid.websocket_server (fst (Hybrid.start R l)) = true /\
   Hybrid.is_running (fst (Hybrid.start R l)) = true /\
   Hybrid.http_listening (fst (Hybrid.start R l)) =
     (Hybrid.AIOHTTP_AVAILABLE R && negb (Hybrid.runner_setup_raises R)
        && negb (Hybrid.site_start_raises R)) || Hybrid.http_listening l) /\
  (Hybrid.WEBSOCKETS_AVAILABLE R = false \/ Hybrid.serve_raises R = true ->
   snd (Hybrid.start R l) = false /\
   Hybrid.websocket_server (fst (Hybrid.start R l)) = Hybrid.websocket_server l /\
   Hybrid.is_running (fst (Hybrid.start R l)) = Hybrid.is_running l /\
   Hybrid.site (fst (Hybrid.start R l)) = Hybrid.site l /\
   Hybrid.http_listening (fst (Hybrid.start R l)) = Hybrid.http_listening l).
Proof.
  unfold Hybrid.start, Hybrid.start_http_server. split.
  - intros -> ->. cbn [negb].
    destruct (Hybrid.AIOHTTP_AVAILABLE R), (Hybrid.runner_setup_raises R),
      (Hybrid.site_start_raises R); cbn; repeat split; reflexivity.
  - intros [Hno|Hraise].
    + rewrite Hno. cbn. repeat split; reflexivity.
    + rewrite Hraise. destruct (Hybrid.WEBSOCKETS_AVAILABLE R); cbn;
        repeat split; reflexivity.
Qed.

Lemma start_depends_on_websocket_only_witness :
  snd (Hybrid.start no_aiohttp Hybrid.stopped) = true /\
  Hybrid.is_running (fst (Hybrid.start no_aiohttp Hybrid.stopped)) = true /\
  snd (Hybrid.start port_taken Hybrid.stopped) = false /\
  Hybrid.http_listening (fst (Hybrid.start port_taken Hybrid.stopped)) = false.
Proof.
  destruct (start_depends_on_websocket_only no_aiohttp Hybrid.stopped)
    as [Hup _].
  destruct (Hup eq_refl eq_refl) as (Hret & _ & Hrun & _).
  destruct (start_depends_on_websocket_only port_taken Hybrid.stopped)
    as [_ Hdown].
  destruct (Hdown (or_intror eq_refl)) as (Hret' & _ & _ & _ & Hhttp).
  exact (conj Hret (conj Hrun (conj Hret' Hhttp))).
Defined.

(** C8 as worded fails in one direction: the port being taken for the
    websocket listener keeps the HTTP listener down. *)
Lemma websocket_failure_stops_http : ~ http_survives port_taken.
Proof.
  unfold http_survives. intros H.
  specialize (H eq_refl eq_refl eq_refl). vm_compute in H. discriminate.
Qed.

(** ** The two classes side by side *)

Lemma same_service_fields (h l : server) :
  same_service h l <->
  connected_clients l = connected_clients h /\
  tokens l = legacy_registry (tokens h) /\
  clock l = clock h /\
  wire l = map legacy_attempt (wire h).
Proof.
  unfold same_service, forget_log, legacy_view. split.
  - intros [= -> -> -> ->]. auto.
  - intros (-> & -> & -> & ->). reflexivity.
Qed.

Lemma legacy_registry_store (r : registry) (k : json) (v : dict) :
  legacy_registry (registry_store r k v) =
  registry_store (legacy_registry r) k (without_transport v).
Proof.
  induction r as [|[k0 v0] r IH]; cbn [registry_store legacy_registry map fst snd];
    [reflexivity|].
  destruct (key_eqb k k0); cbn [map fst snd]; [reflexivity|].
  unfold legacy_registry in IH. rewrite IH. reflexivity.
Qed.

Lemma legacy_sends (W : world) (message : json) (members : list conn) :
  forall k : nat,
    map legacy_attempt (sends W k message members) =
    sends W k (legacy_payload message) members.
Proof.
  induction members as [|c members IH]; intros k; cbn [sends map];
    [reflexivity|].
  rewrite IH. reflexivity.
Qed.

Lemma failed_legacy (attempts : list attempt) :
  failed (map legacy_attempt attempts) = failed attempts.
Proof.
  unfold failed. induction attempts as [|a attempts IH]; [reflexivity|].
  cbn [map]. rewrite !filter_cons. cbn [legacy_attempt delivered].
  destruct (decide (negb (delivered a))); cbn [map target]; rewrite IH;
    reflexivity.
Qed.

Section InStep.

Variable W : world.

Lemma in_step_ret {A} (a : A) : in_step (ret a) (ret a).
Proof. intros h l H. split; [exact H|reflexivity]. Qed.

Lemma in_step_lift {A} (r : result A) : in_step (lift r) (lift r).
Proof. intros h l H. split; [exact H|reflexivity]. Qed.

Lemma in_step_raise {A} (e : exn) : in_step (@raise A e) (raise e).
Proof. intros h l H. split; [exact H|reflexivity]. Qed.

Lemma in_step_bind {A B} (mh ml : M A) (kh kl : A -> M B) :
  in_step mh ml -> (forall a, in_step (kh a) (kl a)) ->
  in_step (bind mh kh) (bind ml kl).
Proof.
  intros Hm Hk h l H. unfold bind.
  destruct (Hm h l H) as [Hst Hres].
  destruct (mh h) as [h' rh], (ml l) as [l' rl]. cbn [fst snd] in *.
  subst rl. destruct rh as [a|e]; [apply Hk; exact Hst|].
  split; [exact Hst|reflexivity].
Qed.

Lemma in_step_try_except {A} (mh ml : M A) (hh hl : exn -> M A) :
  in_step mh ml -> (forall e, in_step (hh e) (hl e)) ->
  in_step (try_except mh hh) (try_except ml hl).
Proof.
  intros Hm Hk h l H. unfold try_except.
  destruct (Hm h l H) as [Hst Hres].
  destruct (mh h) as [h' rh], (ml l) as [l' rl]. cbn [fst snd] in *.
  subst rl. destruct rh as [a|e]; [|apply Hk; exact Hst].
  split; [exact Hst|reflexivity].
Qed.

Lemma in_step_logger (lh ll : level) (wh wl : string) (ah al : list json) :
  in_step (logger lh wh ah) (logger ll wl al).
Proof. intros h l H. split; [exact H|reflexivity]. Qed.

Lemma in_step_now : in_step (now_isoformat W) (now_isoformat W).
Proof.
  intros h l H. apply same_service_fields in H as (Hc & Ht & Hk & Hw).
  unfold now_isoformat. cbn [fst snd]. rewrite Hk. split; [|reflexivity].
  apply same_service_fields. cbn [connected_clients tokens clock wire]. auto.
Qed.

Lemma in_step_len_tokens : in_step len_tokens len_tokens.
Proof.
  intros h l H. split; [exact H|].
  apply same_service_fields in H as (_ & Ht & _). unfold len_tokens.
  cbn [snd]. rewrite Ht. unfold legacy_registry. rewrite length_map.
  reflexivity.
Qed.

Lemma in_step_tokens_setitem (k : json) (vh vl : dict) :
  without_transport vh = vl ->
  in_step (tokens_setitem k vh) (tokens_setitem k vl).
Proof.
  intros <- h l H. unfold tokens_setitem, registry_setitem.
  destruct (hashable k); [|split; [exact H|reflexivity]].
  unfold set_tokens. cbn [fst snd]. split; [|reflexivity].
  apply same_service_fields in H as (Hc & Ht & Hk & Hw).
  apply same_service_fields. cbn [connected_clients tokens clock wire].
  rewrite legacy_registry_store, Ht. auto.
Qed.

Lemma in_step_clients_add (c : conn) : in_step (clients_add c) (clients_add c).
Proof.
  intros h l H. apply same_service_fields in H as (Hc & Ht & Hk & Hw).
  unfold clients_add. cbn [fst snd]. split; [|reflexivity].
  apply same_service_fields. cbn [connected_clients tokens clock wire].
  rewrite Hc. auto.
Qed.

Lemma in_step_clients_remove (c : conn) :
  in_step (clients_remove c) (clients_remove c).
Proof.
  intros h l H. pose proof H as H'.
  apply same_service_fields in H as (Hc & Ht & Hk & Hw).
  unfold clients_remove. rewrite Hc.
  destruct (decide (c ∈ connected_clients h)); cbn [fst snd];
    [|split; [exact H'|reflexivity]].
  split; [|reflexivity].
  apply same_service_fields. cbn [connected_clients tokens clock wire]. auto.
Qed.

Lemma in_step_websocket_send (c : conn) (mh ml : json) :
  legacy_payload mh = ml ->
  in_step (websocket_send W c mh) (websocket_send W c ml).
Proof.
  intros <- h l H. apply same_service_fields in H as (Hc & Ht & Hk & Hw).
  unfold websocket_send. cbn [fst snd].
  rewrite Hw, length_map. split; [|reflexivity].
  apply same_service_fields. cbn [connected_clients tokens clock wire].
  rewrite map_app. auto.
Qed.

Lemma in_step_send_message (c : conn) (mh ml : json) :
  legacy_payload mh = ml ->
  in_step (send_message W c mh) (send_message W c ml).
Proof.
  intros Hm. unfold send_message. apply in_step_try_except.
  - apply in_step_websocket_send. exact Hm.
  - intros e. apply in_step_logger.
Qed.

Lemma in_step_broadcast (mh ml : json) :
  legacy_payload mh = ml ->
  in_step (broadcast W mh) (broadcast W ml).
Proof.
  intros <- h l H. apply same_service_fields in H as (Hc & Ht & Hk & Hw).
  rewrite !broadcast_pass. cbn [fst snd]. split; [|reflexivity].
  apply same_service_fields. cbn [connected_clients tokens clock wire].
  rewrite Hc, Hw, length_map, map_app, legacy_sends, <- legacy_sends, failed_legacy.
  auto.
Qed.

Lemma in_step_handle_token_error (data : json) :
  in_step (handle_token_error data) (handle_token_error data).
Proof.
  unfold handle_token_error.
  apply in_step_bind; [apply in_step_lift|intros error_msg].
  apply in_step_bind; [apply in_step_lift|intros status].
  apply in_step_logger.
Qed.

End InStep.

Ltac in_step_auto W :=
  repeat first
    [ apply in_step_ret
    | apply in_step_lift
    | apply in_step_logger
    | apply (in_step_now W)
    | apply in_step_len_tokens
    | apply in_step_handle_token_error
    | apply in_step_tokens_setitem; reflexivity
    | apply (in_step_broadcast W); reflexivity
    | apply (in_step_send_message W); reflexivity
    | apply in_step_bind; [|intros ?]
    | match goal with
      | |- in_step (if ?b then _ else _) (if ?b then _ else _) => destruct b
      end ].

Lemma in_step_handle_token_update (W : world) (data : json) :
  in_step (Hybrid.handle_token_update W data "websocket")
          (Legacy.handle_token_update W data).
Proof.
  unfold Hybrid.handle_token_update, Legacy.handle_token_update.
  in_step_auto W.
Qed.

Lemma in_step_handle_message (W : world) (websocket : conn) (message : frame) :
  in_step (Hybrid.handle_message W websocket message)
          (Legacy.handle_message W websocket message).
Proof.
  unfold Hybrid.handle_message, Legacy.handle_message.
  apply in_step_try_except.
  - unfold Hybrid.dispatch, Legacy.dispatch.
    apply in_step_bind; [apply in_step_lift|intros data].
    apply in_step_bind; [apply in_step_lift|intros msg_type].
    destruct (eq_str msg_type "connection"); [in_step_auto W|].
    destruct (eq_str msg_type "token_update");
      [apply in_step_handle_token_update|].
    in_step_auto W.
  - intros e. destruct e; apply in_step_logger.
Qed.

Lemma in_step_react (W : world) (ev : event) :
  in_step (react (Hybrid.handle_message W) ev) (react (Legacy.handle_message W) ev).
Proof.
  destruct ev as [c|c message|c abrupt]; cbn [react].
  - apply in_step_bind; [apply in_step_logger|intros _].
    apply in_step_clients_add.
  - apply in_step_handle_message.
  - apply in_step_bind; [|intros _; apply in_step_clients_remove].
    destruct abrupt; [apply in_step_logger|apply in_step_ret].
Qed.

Lemma run_in_step (W : world) (evs : list event) :
  forall h l,
    same_service h l ->
    same_service (run (Hybrid.handle_message W) evs h)
                 (run (Legacy.handle_message W) evs l).
Proof.
  induction evs as [|ev evs IH]; intros h l H; cbn [run]; [exact H|].
  apply IH. exact (proj1 (in_step_react W ev h l H)).
Qed.

(** C9, as the code has it.  Fed the same connections, frames and
    disconnections in the same world, the two classes end with the same
    connection set and clock, and the bidirectional-only class holds
    exactly the records, and has sent exactly the messages, of the
    dual-transport class with the ["transport"] entry taken out of each. *)
Theorem legacy_is_hybrid_without_transport (W : world) (evs : list event) :
  let h := run (Hybrid.handle_message W) evs init in
  let l := run (Legacy.handle_message W) evs init in
  connected_clients l = connected_clients h /\
  tokens l = legacy_registry (tokens h) /\
  get_tokens l = get_tokens h /\
  wire l = map legacy_attempt (wire h).
Proof.
  intros h l.
  assert (H : same_service h l) by (apply run_in_step; reflexivity).
  apply same_service_fields in H as (Hc & Ht & _ & Hw).
  repeat split; try assumption.
  unfold get_tokens. rewrite Ht. unfold legacy_registry.
  rewrite map_map. reflexivity.
Qed.

(** C9 as worded fails: after one report the records differ, and so do
    the messages sent. *)
Lemma classes_differ_on_transport :
  tokens (run (Hybrid.handle_message calm) one_report init) <>
  tokens (run (Legacy.handle_message calm) one_report init) /\
  map payload (wire (run (Hybrid.handle_message calm) one_report init)) <>
  map payload (wire (run (Legacy.handle_message calm) one_report init)).
Proof.
  split; vm_compute; discriminate.
Qed.

(** ** The listing of GET /api/tokens *)

Lemma string_length_app (s t : string) :
  String.length (s +:+ t) = String.length s + String.length t.
Proof. induction s as [|a s IH]; simpl; [reflexivity|]. rewrite IH. reflexivity. Qed.

Lemma str_take_length (n : nat) (s : string) : String.length (str_take n s) <= n.
Proof.
  revert s. induction n as [|n IH]; intros [|a s]; simpl; try lia.
  specialize (IH s). lia.
Qed.

Lemma prefix_length (a b : string) :
  String.prefix a b = true -> String.length a <= String.length b.
Proof.
  revert a. induction b as [|y b IH]; intros [|x a]; simpl; try lia;
    try discriminate.
  destruct (Ascii.ascii_dec x y); [|discriminate].
  intros H. specialize (IH a H). lia.
Qed.

Lemma includes_length (text token : string) :
  includes text token = true -> String.length token <= String.length text.
Proof.
  induction text as [|x text IH]; cbn [includes]; intros H;
    apply orb_true_iff in H as [H|H]; try discriminate.
  - exact (prefix_length _ _ H).
  - exact (prefix_length _ _ H).
  - specialize (IH H). simpl. lia.
Qed.

Lemma summary_of_string (info : dict) (token : string) :
  dict_lookup info "token" = Some (JStr token) ->
  exists entry, Hybrid.summary info = Ok entry /\ summary_of info token entry.
Proof.
  intros Htok. unfold Hybrid.summary.
  rewrite !(dict_get_found _ _ _ _ Htok).
  destruct token as [|a token].
  - cbn [truthy]. eexists. split; [reflexivity|].
    unfold summary_of. repeat split; try reflexivity; simpl; lia.
  - cbn [truthy slice8_plus_dots]. eexists. split; [reflexivity|].
    unfold summary_of. repeat split; try reflexivity.
    intros Hlong text [= <-].
    destruct (includes _ _) eqn:E; [|reflexivity].
    apply includes_length in E. rewrite string_length_app in E.
    pose proof (str_take_length 8 (String a token)). simpl in *. lia.
Qed.

Lemma token_list_strings (values : list dict) :
  forall acc : list dict,
    Forall holds_string_token values ->
    exists entries,
      Hybrid.token_list values acc = Ok (acc ++ entries) /\
      Forall2 (fun info entry =>
                 forall token, dict_lookup info "token" = Some (JStr token) ->
                               summary_of info token entry)
              values entries.
Proof.
  induction values as [|info values IH]; intros acc Hall.
  - exists []. rewrite app_nil_r. split; [reflexivity|constructor].
  - apply Forall_cons in Hall as [[token Htok] Hall].
    destruct (summary_of_string info token Htok) as (entry & Hentry & Hsum).
    destruct (IH (acc ++ [entry]) Hall) as (entries & Hlist & Hrest).
    exists (entry :: entries). cbn [Hybrid.token_list].
    rewrite Hentry, Hlist, <- app_assoc. split; [reflexivity|].
    constructor; [|exact Hrest].
    intros token' Htok'. rewrite Htok in Htok'. injection Htok' as <-.
    exact Hsum.
Qed.

(** X23.  When every stored token is a string, GET
    /api/tokens is answered 200 with one entry per record, in order, and
    leaves the registry as it was.  An entry has exactly the fields
    user_name, user_email, last_updated, status, transport and
    token_preview: none holds the token or the raw payload.  The first five
    are copied from the record; for a token of 8 characters or more the
    preview is its first 8 characters followed by "...", and a token
    longer than 11 characters does not occur in its preview. *)
Theorem listing_shows_prefix_only (W : world) (st : server) :
  Forall holds_string_token (get_all_token_info st) ->
  exists entries,
    snd (Hybrid.handle_get_tokens W st) =
      Ok (Hybrid.json_response
            [("status", JStr "success");
             ("count", JInt (Z.of_nat (length (tokens st))));
             ("tokens", JArr (map JObj entries));
             ("timestamp", JStr (isoformat W (clock st)))] 200) /\
    tokens (fst (Hybrid.handle_get_tokens W st)) = tokens st /\
    Forall2 (fun info entry =>
               forall token, dict_lookup info "token" = Some (JStr token) ->
                             summary_of info token entry)
            (get_all_token_info st) entries.
Proof.
  intros Hall.
  destruct (token_list_strings _ [] Hall) as (entries & Hlist & Hrest).
  exists entries. unfold Hybrid.handle_get_tokens, bind, lift.
  unfold get_all_token_info in Hlist. rewrite Hlist. cbn [app fst snd tokens].
  unfold now_isoformat, ret. cbn [fst snd tokens].
  split; [|split; [reflexivity|exact Hrest]].
  apply Forall2_length in Hrest. unfold get_all_token_info in Hrest.
  rewrite length_map in Hrest. rewrite Hrest. reflexivity.
Qed.

Lemma listing_shows_prefix_only_witness :
  Hybrid.status_of (Hybrid.handle_get_tokens calm (after_report "abc123xyz789"))
    = Some 200%Z /\
  tokens (fst (Hybrid.handle_get_tokens calm (after_report "abc123xyz789")))
    = tokens (after_report "abc123xyz789").
Proof.
  assert (Hall : Forall holds_string_token
                   (get_all_token_info (after_report "abc123xyz789"))).
  { vm_compute get_all_token_info. constructor; [|constructor].
    exists "abc123xyz789". reflexivity. }
  destruct (listing_shows_prefix_only calm _ Hall) as (entries & Hanswer & Hsame & _).
  unfold Hybrid.status_of. rewrite Hanswer. split; [reflexivity|exact Hsame].
Defined.

(** C1, on the code: the listing can carry a whole token.  After a
    report of the 8-character token "abc123xy" the registry holds that
    token, and GET /api/tokens answers with the preview "abc123xy...", in
    which the token occurs in full; so the listing is not as the claim,
    and the docstring of [handle_get_tokens], have it. *)
Theorem listing_carries_whole_token :
  get_tokens (after_report "abc123xy") = [JStr "abc123xy"] /\
  snd (Hybrid.handle_get_tokens calm (after_report "abc123xy")) =
    Ok (Hybrid.json_response
          [("status", JStr "success");
           ("count", JInt 1);
           ("tokens",
            JArr [JObj [("user_name", JStr "unknown");
                        ("user_email", JStr "unknown");
                        ("last_updated", JStr "2025-01-01T00:00:00");
                        ("status", JStr "active");
                        ("transport", JStr "http");
                        ("token_preview", JStr "abc123xy...")]]);
           ("timestamp", JStr "2025-01-01T00:00:00")] 200) /\
  includes "abc123xy..." "abc123xy" = true /\
  ~ listing_redacts calm (after_report "abc123xy").
Proof.
  split; [vm_compute; reflexivity|]. split; [vm_compute; reflexivity|].
  split; [reflexivity|].
  intros H.
  destruct (Hybrid.handle_get_tokens calm (after_report "abc123xy"))
    as [st' [answer|e]] eqn:E; [|vm_compute in E; discriminate].
  pose proof E as E'. vm_compute in E'. injection E' as _ Hanswer.
  set (entry := [("user_name", JStr "unknown"); ("user_email", JStr "unknown");
                 ("last_updated", JStr "2025-01-01T00:00:00");
                 ("status", JStr "active"); ("transport", JStr "http");
                 ("token_preview", JStr "abc123xy...")]).
  destruct (H st' answer [entry] E) with
    (i := 0) (entry := entry) (token := "abc123xy")
    (info := stored_record calm
               [("accessToken", JStr "abc123xy"); ("transport", JStr "http")]
               [] "abc123xy" "http" 0)
    as [Hhidden _].
  - subst answer. reflexivity.
  - vm_compute. reflexivity.
  - reflexivity.
  - reflexivity.
  - apply Hhidden. exists "token_preview", "abc123xy...".
    split; reflexivity.
Qed.

(** ** More on the registry *)

Lemma registry_lookup_present (r : registry) (token : string) :
  JStr token ∈ map fst r -> exists info, registry_lookup r (JStr token) = Some info.
Proof.
  induction r as [|[k v] r IH]; cbn [registry_lookup map fst]; intros Hin.
  - inversion Hin.
  - destruct (key_eqb (JStr token) k) eqn:E; [eauto|].
    apply elem_of_cons in Hin as [Heq|Hin]; [|exact (IH Hin)].
    subst k. rewrite (proj2 (key_eqb_str token _) eq_refl) in E. discriminate.
Qed.

Lemma registry_lookup_store_other (r : registry) (token other : string) (v : dict) :
  other <> token ->
  registry_lookup (registry_store r (JStr token) v) (JStr other) =
  registry_lookup r (JStr other).
Proof.
  intros Hne. induction r as [|[k v0] r IH]; cbn [registry_store registry_lookup].
  - destruct (key_eqb (JStr other) (JStr token)) eqn:E; [|reflexivity].
    apply key_eqb_str in E. congruence.
  - destruct (key_eqb (JStr token) k) eqn:E; cbn [registry_lookup].
    + apply key_eqb_str in E. subst k.
      destruct (key_eqb (JStr other) (JStr token)) eqn:E'; [|reflexivity].
      apply key_eqb_str in E'. congruence.
    + rewrite IH. reflexivity.
Qed.

Lemma registry_store_keys_present (r : registry) (token : string) (v : dict) :
  JStr token ∈ map fst r ->
  map fst (registry_store r (JStr token) v) = map fst r.
Proof.
  induction r as [|[k v0] r IH]; cbn [registry_store map fst]; intros Hin.
  - inversion Hin.
  - destruct (key_eqb (JStr token) k) eqn:E; [reflexivity|].
    cbn [map fst]. rewrite IH; [reflexivity|].
    apply elem_of_cons in Hin as [Heq|Hin]; [|exact Hin].
    subst k. rewrite (proj2 (key_eqb_str token _) eq_refl) in E. discriminate.
Qed.

Lemma registry_store_keys_absent (r : registry) (token : string) (v : dict) :
  JStr token ∉ map fst r ->
  map fst (registry_store r (JStr token) v) = map fst r ++ [JStr token].
Proof.
  induction r as [|[k v0] r IH]; cbn [registry_store map fst]; intros Hout.
  - reflexivity.
  - destruct (key_eqb (JStr token) k) eqn:E.
    + apply key_eqb_str in E. subst k. exfalso. apply Hout. left.
    + cbn [map fst app]. rewrite IH; [reflexivity|].
      intros Hin. apply Hout. right. exact Hin.
Qed.

Lemma key_eqb_sym (a b : json) : key_eqb a b = key_eqb b a.
Proof.
  destruct a, b; cbn [key_eqb]; try reflexivity.
  - destruct b, b0; reflexivity.
  - apply Z.eqb_sym.
  - apply String.eqb_sym.
Qed.

Lemma key_eqb_trans (a b c : json) :
  key_eqb a b = true -> key_eqb b c = true -> key_eqb a c = true.
Proof.
  destruct a, b, c; cbn [key_eqb]; try congruence; intros H1 H2;
    repeat match goal with
           | x : bool |- _ => destruct x
           end; cbn [Bool.eqb] in *; cbv iota in *;
    rewrite ?Z.eqb_eq, ?String.eqb_eq in *;
    try congruence; try lia; try (exfalso; lia).
Qed.

Lemma registry_lookup_congr (r : registry) (a b : json) :
  key_eqb a b = true -> registry_lookup r a = registry_lookup r b.
Proof.
  intros Hab. induction r as [|[k v] r IH]; cbn [registry_lookup]; [reflexivity|].
  destruct (key_eqb a k) eqn:Ea, (key_eqb b k) eqn:Eb; try reflexivity;
    try exact IH.
  - rewrite key_eqb_sym in Hab.
    rewrite (key_eqb_trans _ _ _ Hab Ea) in Eb. discriminate.
  - rewrite (key_eqb_trans _ _ _ Hab Eb) in Ea. discriminate.
Qed.

Lemma registry_lookup_store_none (r : registry) (k k' : json) (v : dict) :
  key_eqb k' k = false ->
  registry_lookup r k' = None ->
  registry_lookup (registry_store r k v) k' = None.
Proof.
  intros Hne. induction r as [|[k0 v0] r IH]; cbn [registry_store registry_lookup].
  - rewrite Hne. reflexivity.
  - destruct (key_eqb k' k0) eqn:E0; [discriminate|]. intros Hnone.
    destruct (key_eqb k k0); cbn [registry_lookup]; rewrite E0; auto.
Qed.

Lemma distinct_keys_store (r : registry) (k : json) (v : dict) :
  distinct_keys r -> distinct_keys (registry_store r k v).
Proof.
  induction r as [|[k0 v0] r IH]; cbn [registry_store distinct_keys].
  - intros _. split; [reflexivity|exact I].
  - intros [Hnone Hrest]. destruct (key_eqb k k0) eqn:E; cbn [distinct_keys].
    + split; assumption.
    + split; [|exact (IH Hrest)].
      apply registry_lookup_store_none; [|exact Hnone].
      rewrite key_eqb_sym. exact E.
Qed.

Lemma registry_lookup_del_none (r : registry) (k k' : json) :
  registry_lookup r k' = None -> registry_lookup (registry_del r k) k' = None.
Proof.
  induction r as [|[k0 v0] r IH]; cbn [registry_del registry_lookup]; [auto|].
  destruct (key_eqb k' k0) eqn:E0; [discriminate|]. intros Hnone.
  destruct (key_eqb k k0); cbn [registry_lookup]; rewrite ?E0; auto.
Qed.

Lemma distinct_keys_del (r : registry) (k : json) :
  distinct_keys r -> distinct_keys (registry_del r k).
Proof.
  induction r as [|[k0 v0] r IH]; cbn [registry_del distinct_keys]; [auto|].
  intros [Hnone Hrest]. destruct (key_eqb k k0); cbn [distinct_keys]; [exact Hrest|].
  split; [apply registry_lookup_del_none; exact Hnone|exact (IH Hrest)].
Qed.

Lemma registry_lookup_del_same (r : registry) (k : json) :
  distinct_keys r -> registry_lookup (registry_del r k) k = None.
Proof.
  induction r as [|[k0 v0] r IH]; cbn [registry_del distinct_keys registry_lookup];
    [auto|].
  intros [Hnone Hrest]. destruct (key_eqb k k0) eqn:E.
  - rewrite (registry_lookup_congr r k k0 E). exact Hnone.
  - cbn [registry_lookup]. rewrite E. exact (IH Hrest).
Qed.

Lemma registry_lookup_del_other (r : registry) (token other : string) :
  other <> token ->
  registry_lookup (registry_del r (JStr token)) (JStr other) =
  registry_lookup r (JStr other).
Proof.
  intros Hne. induction r as [|[k v0] r IH]; cbn [registry_del registry_lookup];
    [reflexivity|].
  destruct (key_eqb (JStr token) k) eqn:E; cbn [registry_lookup].
  - apply key_eqb_str in E. subst k.
    destruct (key_eqb (JStr other) (JStr token)) eqn:E'; [|reflexivity].
    apply key_eqb_str in E'. congruence.
  - rewrite IH. reflexivity.
Qed.

Lemma registry_del_length (r : registry) (k : json) (info : dict) :
  registry_lookup r k = Some info ->
  S (length (registry_del r k)) = length r.
Proof.
  induction r as [|[k0 v0] r IH]; cbn [registry_del registry_lookup];
    [discriminate|].
  destruct (key_eqb k k0); [reflexivity|]. intros H. cbn [length].
  rewrite (IH H). reflexivity.
Qed.

Lemma registry_lookup_key (r : registry) (token : string) (info : dict) :
  registry_lookup r (JStr token) = Some info -> JStr token ∈ map fst r.
Proof.
  induction r as [|[k v] r IH]; cbn [registry_lookup map fst]; [discriminate|].
  destruct (key_eqb (JStr token) k) eqn:E.
  - intros _. apply key_eqb_str in E. subst k. left.
  - intros H. right. exact (IH H).
Qed.

(** X1. [remove_token] returns [True] exactly when the token is a key of
    the registry; for a token that is not, it returns [False] and changes
    nothing, the log included. *)
Theorem remove_token_reports_presence (st : server) (token : string) :
  (snd (remove_token token st) = Ok true <-> JStr token ∈ get_tokens st) /\
  (JStr token ∉ get_tokens st -> remove_token token st = (st, Ok false)).
Proof.
  unfold remove_token, get_tokens. split; [split|].
  - destruct (registry_lookup (tokens st) (JStr token)) eqn:E;
      [|cbn; discriminate].
    intros _. exact (registry_lookup_key _ _ _ E).
  - intros Hin. destruct (registry_lookup_present _ _ Hin) as [info ->].
    reflexivity.
  - intros Hout. rewrite (registry_lookup_absent _ _ Hout). reflexivity.
Qed.

Lemma remove_token_reports_presence_witness :
  remove_token "zzz" (after_report "abc123xyz789")
  = (after_report "abc123xyz789", Ok false).
Proof.
  apply (proj2 (remove_token_reports_presence _ "zzz")).
  vm_compute. intros Hin. inversion Hin as [|? ? ? Hin']; subst. inversion Hin'.
Defined.

(** X2. When no two records share a key, removing a token that is stored
    takes out exactly its record: the registry is one shorter, the token is
    unknown afterwards, every other token is looked up as before, the
    connections and the wire are untouched, and a second removal returns
    [False] and changes nothing. *)
Theorem remove_token_removes (st : server) (token : string) :
  distinct_keys (tokens st) ->
  JStr token ∈ get_tokens st ->
  let first := remove_token token st in
  snd first = Ok true /\
  S (length (tokens (fst first))) = length (tokens st) /\
  get_token_info (fst first) token = [] /\
  (forall other, other <> token ->
     get_token_info (fst first) other = get_token_info st other) /\
  connected_clients (fst first) = connected_clients st /\
  wire (fst first) = wire st /\
  remove_token token (fst first) = (fst first, Ok false).
Proof.
  intros Hdistinct Hin first. subst first. unfold get_tokens in Hin.
  destruct (registry_lookup_present _ _ Hin) as [info Hinfo].
  assert (Hfirst : remove_token token st =
            ({| connected_clients := connected_clients st;
                tokens := registry_del (tokens st) (JStr token);
                clock := clock st; wire := wire st;
                log := log st ++ [LogRecord INFO "token removed"
                                    [JStr (str_take 8 token)]] |}, Ok true))
    by (unfold remove_token; rewrite Hinfo; reflexivity).
  rewrite Hfirst. cbn [fst snd tokens connected_clients wire].
  split; [reflexivity|]. split; [exact (registry_del_length _ _ _ Hinfo)|].
  split; [|split; [|split; [reflexivity|split; [reflexivity|]]]].
  - unfold get_token_info. cbn [tokens].
    rewrite (registry_lookup_del_same _ _ Hdistinct). reflexivity.
  - intros other Hne. unfold get_token_info. cbn [tokens].
    rewrite (registry_lookup_del_other _ _ _ Hne). reflexivity.
  - unfold remove_token. cbn [tokens].
    rewrite (registry_lookup_del_same _ _ Hdistinct). reflexivity.
Qed.

Lemma remove_token_removes_witness :
  get_token_info (fst (remove_token "abc123xyz789" (after_report "abc123xyz789")))
    "abc123xyz789" = [] /\
  tokens (fst (remove_token "abc123xyz789" (after_report "abc123xyz789"))) = [].
Proof.
  destruct (remove_token_removes (after_report "abc123xyz789") "abc123xyz789")
    as (_ & _ & Hgone & _).
  - vm_compute. auto.
  - vm_compute. left.
  - split; [exact Hgone|vm_compute; reflexivity].
Defined.

(** ** Reports and the other records *)

Lemma report_registry (W : world) (d u : dict) (token transport : string)
    (st : server) :
  dict_lookup d "accessToken" = Some (JStr token) ->
  token <> "" ->
  user_of d = Some u ->
  tokens (fst (Hybrid.handle_token_update W (JObj d) transport st)) =
    registry_store (tokens st) (JStr token)
      (stored_record W d u token transport (clock st)) /\
  clock (fst (Hybrid.handle_token_update W (JObj d) transport st)) =
    S (S (clock st)).
Proof.
  intros Htok Hne Huser.
  rewrite (handle_token_update_stores W d u token transport st Htok Hne Huser).
  split; reflexivity.
Qed.

(** X3. A well-formed report touches one key of the registry: the record
    of its token becomes the one built from the report and stamped with the
    clock reading taken for it, every other token is looked up as before,
    and the list of keys is unchanged when the token was known and has the
    token appended when it was not. *)
Theorem report_touches_one_key (W : world) (st : server) (d u : dict)
    (token transport : string) :
  dict_lookup d "accessToken" = Some (JStr token) ->
  token <> "" ->
  user_of d = Some u ->
  let after := fst (Hybrid.handle_token_update W (JObj d) transport st) in
  get_token_info after token = stored_record W d u token transport (clock st) /\
  (forall other, other <> token ->
     get_token_info after other = get_token_info st other) /\
  (JStr token ∈ get_tokens st -> get_tokens after = get_tokens st) /\
  (JStr token ∉ get_tokens st -> get_tokens after = get_tokens st ++ [JStr token]).
Proof.
  intros Htok Hne Huser after. subst after.
  destruct (report_registry W d u token transport st Htok Hne Huser) as [Hreg _].
  unfold get_token_info, get_tokens. rewrite Hreg.
  split; [rewrite registry_lookup_store; reflexivity|].
  split; [intros other Hother;
          rewrite (registry_lookup_store_other _ _ _ _ Hother); reflexivity|].
  split; [apply registry_store_keys_present|apply registry_store_keys_absent].
Qed.

Lemma report_touches_one_key_witness :
  get_tokens (fst (Hybrid.handle_token_update calm
                     (JObj [("accessToken", JStr "def456")]) "websocket"
                     (after_report "abc123xyz789")))
  = [JStr "abc123xyz789"; JStr "def456"].
Proof.
  destruct (report_touches_one_key calm (after_report "abc123xyz789")
              [("accessToken", JStr "def456")] [] "def456" "websocket")
    as (_ & _ & _ & Hnew); [reflexivity | discriminate | reflexivity |].
  rewrite Hnew; [vm_compute; reflexivity|].
  vm_compute. intros Hin. inversion Hin as [|? ? ? Hin']; subst. inversion Hin'.
Defined.

(** X4. Reporting the same token twice leaves one record under it: the
    second report adds no key, and the record looked up afterwards is the
    one built from the second report, its [last_updated] being the clock
    reading taken for the second report. *)
Theorem report_again_overwrites (W : world) (st : server) (d1 u1 d2 u2 : dict)
    (token transport1 transport2 : string) :
  dict_lookup d1 "accessToken" = Some (JStr token) ->
  dict_lookup d2 "accessToken" = Some (JStr token) ->
  token <> "" ->
  user_of d1 = Some u1 ->
  user_of d2 = Some u2 ->
  let once := fst (Hybrid.handle_token_update W (JObj d1) transport1 st) in
  let twice := fst (Hybrid.handle_token_update W (JObj d2) transport2 once) in
  get_tokens twice = get_tokens once /\
  length (tokens twice) = length (tokens once) /\
  get_token_info twice token =
    stored_record W d2 u2 token transport2 (S (S (clock st))) /\
  dict_lookup (get_token_info twice token) "last_updated" =
    Some (JStr (isoformat W (S (S (clock st))))).
Proof.
  intros Htok1 Htok2 Hne Hu1 Hu2 once twice.
  destruct (report_registry W d1 u1 token transport1 st Htok1 Hne Hu1)
    as [Hreg1 Hclock1].
  destruct (report_registry W d2 u2 token transport2 once Htok2 Hne Hu2)
    as [Hreg2 _].
  fold once in Hreg1, Hclock1. fold twice in Hreg2.
  assert (Hkeys : get_tokens twice = get_tokens once).
  { unfold get_tokens. rewrite Hreg2. apply registry_store_keys_present.
    rewrite Hreg1. eapply registry_lookup_key. apply registry_lookup_store. }
  split; [exact Hkeys|]. split.
  - unfold get_tokens in Hkeys.
    rewrite <- (length_map fst (tokens twice)), Hkeys, length_map. reflexivity.
  - unfold get_token_info. rewrite Hreg2, registry_lookup_store, Hclock1.
    split; reflexivity.
Qed.

Lemma report_again_overwrites_witness :
  let once := fst (Hybrid.handle_token_update calm
                     (JObj [("accessToken", JStr "abc123xyz789")]) "http" init) in
  let twice := fst (Hybrid.handle_token_update calm
                      (JObj [("accessToken", JStr "abc123xyz789");
                             ("status", JStr "expired")]) "websocket" once) in
  length (tokens twice) = 1 /\
  dict_lookup (get_token_info twice "abc123xyz789") "status" = Some (JStr "expired").
Proof.
  intros once twice.
  destruct (report_again_overwrites calm init
              [("accessToken", JStr "abc123xyz789")] []
              [("accessToken", JStr "abc123xyz789"); ("status", JStr "expired")] []
              "abc123xyz789" "http" "websocket")
    as (_ & Hlength & Hrecord & _);
    [reflexivity | reflexivity | discriminate | reflexivity | reflexivity |].
  fold once in Hlength, Hrecord. fold twice in Hlength, Hrecord.
  split; [rewrite Hlength; vm_compute; reflexivity|].
  rewrite Hrecord. reflexivity.
Defined.

(** ** Reports that are not well formed *)

Lemma truthy_get (d : dict) (v : json) :
  dict_lookup d "accessToken" = Some v ->
  dict_get d "accessToken" JNull = v.
Proof. apply dict_get_found. Qed.

(** A [user] that is not an object: the report is refused before
    anything is done. *)
Lemma report_bad_user (W : world) (d : dict) (token v : json)
    (transport : string) (st : server) :
  dict_lookup d "accessToken" = Some token ->
  truthy token = true ->
  dict_lookup d "user" = Some v ->
  is_object v = false ->
  Hybrid.handle_token_update W (JObj d) transport st = (st, Raise AttributeError).
Proof.
  intros Htok Htrue Huser Hobj.
  unfold Hybrid.handle_token_update.
  unfold bind at 1. unfold lift at 1. cbn [get].
  rewrite (truthy_get _ _ Htok), Htrue. cbn [negb].
  unfold bind at 1. unfold lift at 1. cbn [get].
  rewrite (dict_get_found _ _ _ _ Huser).
  unfold bind at 1. unfold lift at 1.
  destruct v; try discriminate; reflexivity.
Qed.

(** Up to the store: the user is read, the clock is read once. *)
Lemma report_unhashable (W : world) (d u : dict) (token : json)
    (transport : string) (st : server) :
  dict_lookup d "accessToken" = Some token ->
  truthy token = true ->
  user_of d = Some u ->
  hashable token = false ->
  Hybrid.handle_token_update W (JObj d) transport st =
  ({| connected_clients := connected_clients st; tokens := tokens st;
      clock := S (clock st); wire := wire st; log := log st |},
   Raise TypeError).
Proof.
  intros Htok Htrue Huser Hhash.
  unfold Hybrid.handle_token_update.
  unfold bind at 1. unfold lift at 1. cbn [get].
  rewrite (truthy_get _ _ Htok), Htrue. cbn [negb].
  unfold bind, lift, now_isoformat, tokens_setitem, registry_setitem. cbn [get].
  rewrite (user_of_get _ _ Huser). cbn [get tokens]. rewrite Hhash.
  reflexivity.
Qed.

(** A token that can be a key but has no length: stored, then the call
    fails at [len(access_token)], before any broadcast. *)
Lemma report_unsized (W : world) (d u : dict) (token : json)
    (transport : string) (st : server) :
  dict_lookup d "accessToken" = Some token ->
  truthy token = true ->
  user_of d = Some u ->
  hashable token = true ->
  len token = Raise TypeError ->
  Hybrid.handle_token_update W (JObj d) transport st =
  ({| connected_clients := connected_clients st;
      tokens := registry_store (tokens st) token
        [("token", token);
         ("user_name", dict_get u "name" (JStr "unknown"));
         ("user_email", dict_get u "email" (JStr "unknown"));
         ("expires", dict_get d "expires" JNull);
         ("status", dict_get d "status" (JStr "active"));
         ("last_updated", JStr (isoformat W (clock st)));
         ("transport", JStr transport);
         ("raw_data", JObj d)];
      clock := S (clock st); wire := wire st;
      log := log st ++
        [LogRecord INFO "token update received"
           [JStr transport; dict_get u "name" (JStr "unknown");
            dict_get u "email" (JStr "unknown")]] |},
   Raise TypeError).
Proof.
  intros Htok Htrue Huser Hhash Hlen.
  unfold Hybrid.handle_token_update.
  unfold bind at 1. unfold lift at 1. cbn [get].
  rewrite (truthy_get _ _ Htok), Htrue. cbn [negb].
  unfold bind, lift, now_isoformat, tokens_setitem, registry_setitem,
    set_tokens, logger. cbn [get].
  rewrite (user_of_get _ _ Huser). cbn [get tokens]. rewrite Hhash.
  cbn [tokens connected_clients clock wire log]. rewrite Hlen. reflexivity.
Qed.

Lemma report_falsy (W : world) (d : dict) (transport : string) (st : server) :
  truthy (dict_get d "accessToken" JNull) = false ->
  Hybrid.handle_token_update W (JObj d) transport st =
  ({| connected_clients := connected_clients st; tokens := tokens st;
      clock := clock st; wire := wire st;
      log := log st ++
        [LogRecord WARNING "token update without accessToken" [JStr transport]] |},
   Ok tt).
Proof.
  intros Hfalse. unfold Hybrid.handle_token_update.
  unfold bind at 1. unfold lift at 1. cbn [get]. rewrite Hfalse. reflexivity.
Qed.

Lemma report_not_object (W : world) (data : json) (transport : string) (st : server) :
  is_object data = false ->
  Hybrid.handle_token_update W data transport st = (st, Raise AttributeError).
Proof. destruct data; try discriminate; reflexivity. Qed.

Lemma sends_delivered (W : world) (message : json) (members : list conn) :
  forall (k : nat) (a : attempt),
    a ∈ sends W k message members ->
    exists j, delivered a = negb (send_raises W j (target a)).
Proof.
  induction members as [|c members IH]; intros k a Ha; cbn [sends] in Ha.
  - inversion Ha.
  - apply elem_of_cons in Ha as [->|Ha]; [exists k; reflexivity|].
    exact (IH _ _ Ha).
Qed.

Lemma pruned_subset (W : world) (message : json) (clients : gset conn) (k : nat) (c : conn) :
  c ∈ clients ∖ list_to_set (failed (sends W k message (elements clients))) ->
  c ∈ clients.
Proof. intros H. apply elem_of_difference in H. tauto. Qed.

Lemma reliable_stays (W : world) (message : json) (clients : gset conn) (k : nat) (c : conn) :
  c ∈ clients ->
  (forall j, send_raises W j c = false) ->
  c ∈ clients ∖ list_to_set (failed (sends W k message (elements clients))).
Proof.
  intros Hin Hok. apply elem_of_difference. split; [exact Hin|].
  rewrite elem_of_list_to_set, failed_spec. intros (a & Ha & Htarget & Hfail).
  destruct (sends_delivered _ _ _ _ _ Ha) as [j Hj].
  rewrite Htarget, Hok, Hfail in Hj. discriminate.
Qed.

Lemma footprint_refl (W : world) (transport : string) (st after : server) :
  tokens after = tokens st ->
  connected_clients after = connected_clients st ->
  report_footprint W transport st after.
Proof.
  intros Ht Hc. unfold report_footprint. rewrite Hc.
  split; [left; exact Ht|]. split; auto.
Qed.

Lemma lookup_found_get (d : dict) (k : string) (v : json) :
  dict_lookup d k = Some v -> dict_get d k JNull = v.
Proof. apply dict_get_found. Qed.

Lemma len_sized (token : json) (n : Z) :
  hashable token = true -> len token = Ok n -> exists s, token = JStr s.
Proof. destruct token; cbn; try discriminate; eauto. Qed.

Lemma len_raises (token : json) (e : exn) : len token = Raise e -> e = TypeError.
Proof. destruct token; cbn; congruence. Qed.

Lemma handle_token_update_footprint (W : world) (data : json)
    (transport : string) (st : server) :
  report_footprint W transport st
    (fst (Hybrid.handle_token_update W data transport st)).
Proof.
  destruct (is_object data) eqn:Hobj;
    [|rewrite (report_not_object _ _ _ _ Hobj); apply footprint_refl; reflexivity].
  destruct data as [| | | | |d]; try discriminate. clear Hobj.
  destruct (truthy (dict_get d "accessToken" JNull)) eqn:Htrue;
    [|rewrite (report_falsy _ _ _ _ Htrue); apply footprint_refl; reflexivity].
  destruct (dict_lookup d "accessToken") as [token|] eqn:Htok;
    [|unfold dict_get in Htrue; rewrite Htok in Htrue; discriminate].
  rewrite (lookup_found_get _ _ _ Htok) in Htrue.
  assert (Huser : (exists v, dict_lookup d "user" = Some v /\ is_object v = false)
                  \/ exists u, user_of d = Some u).
  { unfold user_of. destruct (dict_lookup d "user") as [[]|]; eauto. }
  destruct Huser as [(v & Hv & Hbad)|[u Hu]];
    [rewrite (report_bad_user _ _ _ _ _ _ Htok Htrue Hv Hbad);
     apply footprint_refl; reflexivity|].
  destruct (hashable token) eqn:Hhash;
    [|rewrite (report_unhashable _ _ _ _ _ _ Htok Htrue Hu Hhash);
      apply footprint_refl; reflexivity].
  destruct (len token) as [n|e] eqn:Hlen.
  - destruct (len_sized _ _ Hhash Hlen) as [s ->].
    assert (Hne : s <> "") by (destruct s; [discriminate|congruence]).
    rewrite (handle_token_update_stores W d u s transport st Htok Hne Hu).
    cbn [fst]. unfold report_footprint.
    cbn [tokens connected_clients]. split; [|split].
    + right. eexists _, _. repeat split; try reflexivity. exact Htrue.
    + intros c. apply pruned_subset.
    + intros c. apply reliable_stays.
  - rewrite (len_raises _ _ Hlen) in Hlen.
    rewrite (report_unsized _ _ _ _ _ _ Htok Htrue Hu Hhash Hlen).
    cbn [fst]. unfold report_footprint. cbn [tokens connected_clients].
    split; [|split; auto].
    right. eexists _, _. repeat split; try reflexivity; assumption.
Qed.

(** ** Frames *)

Lemma eq_str_true (v : json) (s : string) : eq_str v s = true <-> v = JStr s.
Proof.
  destruct v; cbn [eq_str]; split; try congruence.
  - intros H. apply String.eqb_eq in H. congruence.
  - intros [= ->]. apply String.eqb_refl.
Qed.

Lemma dict_get_string (d : dict) (k s : string) :
  dict_get d k JNull = JStr s <-> dict_lookup d k = Some (JStr s).
Proof.
  unfold dict_get. destruct (dict_lookup d k); split; congruence.
Qed.

Lemma token_update_type (d : dict) :
  eq_str (dict_get d "type" JNull) "token_update" = true <->
  is_token_update (Parsed (JObj d)).
Proof.
  rewrite eq_str_true, dict_get_string. unfold is_token_update. split.
  - intros H. exists d. auto.
  - intros (d' & [= <-] & H). exact H.
Qed.

Lemma hybrid_other_frames (W : world) (websocket : conn) (message : frame)
    (st : server) :
  ~ is_token_update message ->
  quiet_step websocket st (Hybrid.handle_message W websocket message st).
Proof.
  intros Hnot.
  destruct message as [|data|e];
    [unfold quiet_step; cbn; auto| |destruct e; unfold quiet_step; cbn; auto].
  destruct (is_object data) eqn:Hobj;
    [|destruct data; try discriminate; unfold quiet_step; cbn; auto].
  destruct data as [| | | | |d]; try discriminate. clear Hobj.
  unfold Hybrid.handle_message, try_except, Hybrid.dispatch.
  unfold bind at 1. unfold lift at 1, json_loads.
  unfold bind at 1. unfold lift at 1. cbn [get].
  destruct (eq_str (dict_get d "type" JNull) "connection").
  { unfold bind, lift, logger, now_isoformat, send_message, try_except,
      websocket_send. cbn [get fst snd wire tokens connected_clients clock log].
    unfold quiet_step.
    destruct (send_raises W (length (wire st)) websocket);
      cbn [fst snd wire tokens connected_clients];
      (split; [reflexivity|split; [reflexivity|split; [reflexivity|]]]);
      right; eexists _, _; reflexivity. }
  destruct (eq_str (dict_get d "type" JNull) "token_update") eqn:E;
    [exfalso; apply Hnot, token_update_type; exact E|].
  destruct (eq_str (dict_get d "type" JNull) "token_error");
    [unfold quiet_step; cbn; auto|].
  destruct (eq_str (dict_get d "type" JNull) "heartbeat").
  { unfold bind, lift, logger, now_isoformat, send_message, try_except,
      websocket_send. cbn [get fst snd wire tokens connected_clients clock log].
    unfold quiet_step.
    destruct (send_raises W (length (wire st)) websocket);
      cbn [fst snd wire tokens connected_clients];
      (split; [reflexivity|split; [reflexivity|split; [reflexivity|]]]);
      right; eexists _, _; reflexivity. }
  destruct (eq_str (dict_get d "type" JNull) "pong"); unfold quiet_step; cbn; auto.
Qed.

Lemma hybrid_token_update_frame (W : world) (websocket : conn) (d : dict)
    (st : server) :
  is_token_update (Parsed (JObj d)) ->
  Hybrid.handle_message W websocket (Parsed (JObj d)) st =
  try_except (Hybrid.handle_token_update W (JObj d) "websocket")
    (fun e =>
       match e with
       | JSONDecodeError => logger ERROR "message parse failed" [JStr (exn_str W e)]
       | _ => logger ERROR "message handling failed" [JStr (exn_str W e)]
       end) st.
Proof.
  intros Hup. apply token_update_type in Hup.
  assert (Hconn : eq_str (dict_get d "type" JNull) "connection" = false).
  { apply eq_str_true in Hup. rewrite Hup. reflexivity. }
  unfold Hybrid.handle_message, try_except, Hybrid.dispatch.
  unfold bind at 1. unfold lift at 1, json_loads.
  unfold bind at 1. unfold lift at 1. cbn [get].
  rewrite Hconn, Hup. reflexivity.
Qed.

Lemma hybrid_never_raises (W : world) (websocket : conn) (message : frame)
    (st : server) :
  snd (Hybrid.handle_message W websocket message st) = Ok tt.
Proof.
  unfold Hybrid.handle_message, try_except.
  destruct (Hybrid.dispatch W websocket message st) as [st' [[]|e]];
    [reflexivity|]. destruct e; reflexivity.
Qed.

Lemma legacy_other_frames (W : world) (websocket : conn) (message : frame)
    (st : server) :
  ~ is_token_update message ->
  quiet_step websocket st (Legacy.handle_message W websocket message st).
Proof.
  intros Hnot.
  destruct message as [|data|e];
    [unfold quiet_step; cbn; auto| |destruct e; unfold quiet_step; cbn; auto].
  destruct (is_object data) eqn:Hobj;
    [|destruct data; try discriminate; unfold quiet_step; cbn; auto].
  destruct data as [| | | | |d]; try discriminate. clear Hobj.
  unfold Legacy.handle_message, try_except, Legacy.dispatch.
  unfold bind at 1. unfold lift at 1, json_loads.
  unfold bind at 1. unfold lift at 1. cbn [get].
  destruct (eq_str (dict_get d "type" JNull) "connection").
  { unfold bind, lift, logger, now_isoformat, send_message, try_except,
      websocket_send. cbn [get fst snd wire tokens connected_clients clock log].
    unfold quiet_step.
    destruct (send_raises W (length (wire st)) websocket);
      cbn [fst snd wire tokens connected_clients];
      (split; [reflexivity|split; [reflexivity|split; [reflexivity|]]]);
      right; eexists _, _; reflexivity. }
  destruct (eq_str (dict_get d "type" JNull) "token_update") eqn:E;
    [exfalso; apply Hnot, token_update_type; exact E|].
  destruct (eq_str (dict_get d "type" JNull) "token_error");
    [unfold quiet_step; cbn; auto|].
  destruct (eq_str (dict_get d "type" JNull) "heartbeat").
  { unfold bind, lift, logger, now_isoformat, send_message, try_except,
      websocket_send. cbn [get fst snd wire tokens connected_clients clock log].
    unfold quiet_step.
    destruct (send_raises W (length (wire st)) websocket);
      cbn [fst snd wire tokens connected_clients];
      (split; [reflexivity|split; [reflexivity|split; [reflexivity|]]]);
      right; eexists _, _; reflexivity. }
  destruct (eq_str (dict_get d "type" JNull) "pong"); unfold quiet_step; cbn; auto.
Qed.

Lemma legacy_token_update_frame (W : world) (websocket : conn) (d : dict)
    (st : server) :
  is_token_update (Parsed (JObj d)) ->
  Legacy.handle_message W websocket (Parsed (JObj d)) st =
  try_except (Legacy.handle_token_update W (JObj d))
    (fun e =>
       match e with
       | JSONDecodeError => logger ERROR "message parse failed" [JStr (exn_str W e)]
       | _ => logger ERROR "message handling failed" [JStr (exn_str W e)]
       end) st.
Proof.
  intros Hup. apply token_update_type in Hup.
  assert (Hconn : eq_str (dict_get d "type" JNull) "connection" = false).
  { apply eq_str_true in Hup. rewrite Hup. reflexivity. }
  unfold Legacy.handle_message, try_except, Legacy.dispatch.
  unfold bind at 1. unfold lift at 1, json_loads.
  unfold bind at 1. unfold lift at 1. cbn [get].
  rewrite Hconn, Hup. reflexivity.
Qed.

Lemma legacy_never_raises (W : world) (websocket : conn) (message : frame)
    (st : server) :
  snd (Legacy.handle_message W websocket message st) = Ok tt.
Proof.
  unfold Legacy.handle_message, try_except.
  destruct (Legacy.dispatch W websocket message st) as [st' [[]|e]];
    [reflexivity|]. destruct e; reflexivity.
Qed.

Lemma loop_completes (handle_message : conn -> frame -> M unit) (websocket : conn) :
  (forall message st, snd (handle_message websocket message st) = Ok tt) ->
  forall incoming st,
    snd (for_each (fun _ message => handle_message websocket message) incoming tt st)
    = Ok tt.
Proof.
  intros Hok incoming. induction incoming as [|message incoming IH]; intros st.
  - reflexivity.
  - cbn [for_each]. unfold bind. specialize (Hok message st).
    destruct (handle_message websocket message st) as [st' [[]|e]];
      [apply IH|discriminate].
Qed.

(** X5. Whatever the frames a connection yields (undecodable, not an
    object, of unknown type, a report that fails half way), the receive
    loop of [handle_client] handles them all: [handle_message] never
    raises, in either class, so no frame ends the loop. *)
Theorem receive_loop_completes (W : world) (websocket : conn)
    (incoming : list frame) (st : server) :
  snd (for_each (fun _ message => Hybrid.handle_message W websocket message)
         incoming tt st) = Ok tt /\
  snd (for_each (fun _ message => Legacy.handle_message W websocket message)
         incoming tt st) = Ok tt.
Proof.
  split; apply loop_completes; intros message st'.
  - apply hybrid_never_raises.
  - apply legacy_never_raises.
Qed.

(** X6. A frame that is not a [token_update] message changes neither the
    registry nor the connection set, in either class, and makes at most one
    send, to the connection it came from: a reply that fails to go out
    does not remove the connection. *)
Theorem other_frames_are_quiet (W : world) (websocket : conn) (message : frame)
    (st : server) :
  ~ is_token_update message ->
  quiet_step websocket st (Hybrid.handle_message W websocket message st) /\
  quiet_step websocket st (Legacy.handle_message W websocket message st).
Proof.
  intros Hnot. split; [apply hybrid_other_frames|apply legacy_other_frames];
    exact Hnot.
Qed.

Lemma other_frames_are_quiet_witness :
  connected_clients
    (fst (Hybrid.handle_message stormy 1
            (Parsed (JObj [("type", JStr "heartbeat")])) three_clients))
  = connected_clients three_clients.
Proof.
  destruct (other_frames_are_quiet stormy 1
              (Parsed (JObj [("type", JStr "heartbeat")])) three_clients)
    as [(_ & _ & Hset & _) _]; [|exact Hset].
  intros (d & [= <-] & Htype). discriminate.
Defined.

(** X7. A frame that does not decode, or that decodes to something other
    than an object, is only logged: in both classes the state is the one
    before with one ERROR record added to the log; nothing is sent and the
    clock is not read. *)
Theorem undecodable_frame_is_logged (W : world) (websocket : conn)
    (message : frame) (st : server) :
  (message = Malformed \/ exists v, message = Parsed v /\ is_object v = false) ->
  exists what e,
    Hybrid.handle_message W websocket message st =
      ({| connected_clients := connected_clients st; tokens := tokens st;
          clock := clock st; wire := wire st;
          log := log st ++ [LogRecord ERROR what [JStr (exn_str W e)]] |}, Ok tt) /\
    Legacy.handle_message W websocket message st =
      ({| connected_clients := connected_clients st; tokens := tokens st;
          clock := clock st; wire := wire st;
          log := log st ++ [LogRecord ERROR what [JStr (exn_str W e)]] |}, Ok tt).
Proof.
  intros [->|(v & -> & Hv)].
  - exists "message parse failed", JSONDecodeError. split; reflexivity.
  - exists "message handling failed", AttributeError.
    destruct v; try discriminate; split; reflexivity.
Qed.

Lemma undecodable_frame_is_logged_witness :
  tokens (fst (Hybrid.handle_message calm 1 (Parsed (JArr [])) three_clients)) = [] /\
  wire (fst (Hybrid.handle_message calm 1 (Parsed (JArr [])) three_clients)) = [].
Proof.
  destruct (undecodable_frame_is_logged calm 1 (Parsed (JArr [])) three_clients)
    as (what & e & Hh & _).
  - right. exists (JArr []). split; reflexivity.
  - rewrite Hh. split; reflexivity.
Defined.

(** X8. A [heartbeat] frame is answered, in both classes, by one send to
    its sender of a [pong] stamped with one reading of the clock; when that
    send raises, the failure is logged and the sender stays connected. *)
Theorem heartbeat_is_answered (W : world) (websocket : conn) (d : dict)
    (st : server) :
  dict_lookup d "type" = Some (JStr "heartbeat") ->
  let pong := JObj [("type", JStr "pong");
                    ("timestamp", JStr (isoformat W (clock st)))] in
  let fails := send_raises W (length (wire st)) websocket in
  let after :=
    {| connected_clients := connected_clients st; tokens := tokens st;
       clock := S (clock st);
       wire := wire st ++ [Attempt websocket pong (negb fails)];
       log := log st ++
         (if fails
          then [LogRecord ERROR "send failed" [JStr (exn_str W ConnectionClosed)]]
          else []) |} in
  Hybrid.handle_message W websocket (Parsed (JObj d)) st = (after, Ok tt) /\
  Legacy.handle_message W websocket (Parsed (JObj d)) st = (after, Ok tt).
Proof.
  intros Htype pong fails after. subst after pong fails.
  apply dict_get_string in Htype.
  split.
  - unfold Hybrid.handle_message, try_except, Hybrid.dispatch.
    unfold bind at 1. unfold lift at 1, json_loads.
    unfold bind at 1. unfold lift at 1. cbn [get]. rewrite Htype.
    change (eq_str (JStr "heartbeat") "connection") with false.
    change (eq_str (JStr "heartbeat") "token_update") with false.
    change (eq_str (JStr "heartbeat") "token_error") with false.
    change (eq_str (JStr "heartbeat") "heartbeat") with true. cbv iota.
    unfold bind, now_isoformat, send_message, try_except, websocket_send, logger.
    cbn [wire clock tokens connected_clients log].
    destruct (send_raises W (length (wire st)) websocket); cbn [negb];
      rewrite ?app_nil_r; reflexivity.
  - unfold Legacy.handle_message, try_except, Legacy.dispatch.
    unfold bind at 1. unfold lift at 1, json_loads.
    unfold bind at 1. unfold lift at 1. cbn [get]. rewrite Htype.
    change (eq_str (JStr "heartbeat") "connection") with false.
    change (eq_str (JStr "heartbeat") "token_update") with false.
    change (eq_str (JStr "heartbeat") "token_error") with false.
    change (eq_str (JStr "heartbeat") "heartbeat") with true. cbv iota.
    unfold bind, now_isoformat, send_message, try_except, websocket_send, logger.
    cbn [wire clock tokens connected_clients log].
    destruct (send_raises W (length (wire st)) websocket); cbn [negb];
      rewrite ?app_nil_r; reflexivity.
Qed.

Lemma heartbeat_is_answered_witness :
  map delivered
    (wire (fst (Hybrid.handle_message patchy 2
                  (Parsed (JObj [("type", JStr "heartbeat")])) three_clients)))
  = [false] /\
  2 ∈ connected_clients
        (fst (Hybrid.handle_message patchy 2
                (Parsed (JObj [("type", JStr "heartbeat")])) three_clients)).
Proof.
  destruct (heartbeat_is_answered patchy 2 [("type", JStr "heartbeat")] three_clients)
    as [Hh _]; [reflexivity|].
  rewrite Hh. split; [reflexivity|]. cbn [fst connected_clients three_clients].
  set_solver.
Defined.

(** ** What a report sets off *)


(** X10. A report whose [user] is present but is not an object is refused
    whole: nothing is stored or sent and the clock is not read.  Over the
    websocket the failure is logged; over HTTP the call is answered 500. *)
Theorem report_with_bad_user_is_refused (W : world) (websocket : conn)
    (d : dict) (token v : json) (st : server) :
  dict_lookup d "accessToken" = Some token ->
  truthy token = true ->
  dict_lookup d "user" = Some v ->
  is_object v = false ->
  let refused what :=
    {| connected_clients := connected_clients st; tokens := tokens st;
       clock := clock st; wire := wire st;
       log := log st ++ [LogRecord ERROR what [JStr (exn_str W AttributeError)]] |} in
  (dict_lookup d "type" = Some (JStr "token_update") ->
   Hybrid.handle_message W websocket (Parsed (JObj d)) st =
     (refused "message handling failed", Ok tt)) /\
  Hybrid.handle_http_token W (Parsed (JObj d)) st =
    (refused "http token handling failed",
     Ok (Hybrid.json_response
           [("status", JStr "error");
            ("message",
             JStr ("Internal server error: " +:+ exn_str W AttributeError))] 500)).
Proof.
  intros Htok Htrue Huser Hbad refused. subst refused. split.
  - intros Htype. rewrite hybrid_token_update_frame by (exists d; auto).
    unfold try_except.
    rewrite (report_bad_user W d token v "websocket" st Htok Htrue Huser Hbad).
    reflexivity.
  - unfold Hybrid.handle_http_token, try_except, Hybrid.http_token_try.
    unfold bind at 1. unfold lift at 1, json_loads.
    unfold bind at 1. unfold lift at 1. cbn [get].
    rewrite (dict_get_found _ _ _ _ Htok), Htrue. cbn [negb].
    unfold bind at 1. unfold lift at 1, Hybrid.setitem.
    unfold bind at 1.
    rewrite (report_bad_user W _ token v "http" st);
      [reflexivity | rewrite dict_lookup_setitem_ne; done | exact Htrue
       | rewrite dict_lookup_setitem_ne; done | exact Hbad ].
Qed.

Lemma report_with_bad_user_is_refused_witness :
  let body := Parsed (JObj [("accessToken", JStr "abc"); ("user", JNull)]) in
  tokens (fst (Hybrid.handle_http_token calm body init)) = [] /\
  Hybrid.status_of (Hybrid.handle_http_token calm body init) = Some 500%Z.
Proof.
  intros body.
  destruct (report_with_bad_user_is_refused calm 1
              [("accessToken", JStr "abc"); ("user", JNull)] (JStr "abc") JNull init)
    as [_ Hhttp]; [reflexivity | reflexivity | reflexivity | reflexivity |].
  subst body. unfold Hybrid.status_of. rewrite Hhttp. split; reflexivity.
Defined.

Lemma key_eqb_refl (k : json) : hashable k = true -> key_eqb k k = true.
Proof.
  destruct k; cbn; try discriminate; intros _; try reflexivity.
  - destruct b; reflexivity.
  - apply Z.eqb_refl.
  - apply String.eqb_refl.
Qed.

Lemma registry_lookup_store_same (r : registry) (k : json) (v : dict) :
  hashable k = true -> registry_lookup (registry_store r k v) k = Some v.
Proof.
  intros Hk. induction r as [|[k0 v0] r IH]; cbn [registry_store registry_lookup].
  - rewrite (key_eqb_refl _ Hk). reflexivity.
  - destruct (key_eqb k k0) eqn:E; cbn [registry_lookup]; rewrite E; auto.
Qed.

Lemma registry_store_holds (r : registry) (k : json) (v : dict) :
  v ∈ map snd (registry_store r k v).
Proof.
  induction r as [|[k0 v0] r IH]; cbn [registry_store map snd].
  - left.
  - destruct (key_eqb k k0); cbn [map snd]; [left|right; exact IH].
Qed.

Lemma summary_raises (info : dict) (token : json) :
  dict_lookup info "token" = Some token ->
  truthy token = true ->
  (forall s, token <> JStr s) ->
  Hybrid.summary info = Raise TypeError.
Proof.
  intros Htok Htrue Hnot. unfold Hybrid.summary.
  rewrite !(dict_get_found _ _ _ _ Htok), Htrue.
  destruct token; try reflexivity. exfalso. exact (Hnot s eq_refl).
Qed.

Lemma summary_only_type_error (info : dict) (e : exn) :
  Hybrid.summary info = Raise e -> e = TypeError.
Proof.
  unfold Hybrid.summary.
  destruct (truthy (dict_get info "token" JNull)); [|discriminate].
  destruct (dict_get info "token" (JStr "")); cbn; congruence.
Qed.

Lemma token_list_raises (values : list dict) :
  forall acc : list dict,
    (exists info, info ∈ values /\ Hybrid.summary info = Raise TypeError) ->
    Hybrid.token_list values acc = Raise TypeError.
Proof.
  induction values as [|info values IH]; intros acc (bad & Hin & Hbad).
  - inversion Hin.
  - cbn [Hybrid.token_list].
    destruct (Hybrid.summary info) as [entry|e] eqn:E.
    + apply IH. exists bad. split; [|exact Hbad].
      apply elem_of_cons in Hin as [->|Hin]; [congruence|exact Hin].
    + rewrite (summary_only_type_error _ _ E). reflexivity.
Qed.

Lemma listing_unsliceable (W : world) (st : server) (info : dict) (token : json) :
  info ∈ map snd (tokens st) ->
  dict_lookup info "token" = Some token ->
  truthy token = true ->
  (forall s, token <> JStr s) ->
  Hybrid.handle_get_tokens W st = (st, Raise TypeError).
Proof.
  intros Hin Htok Htrue Hnot.
  unfold Hybrid.handle_get_tokens, bind, lift.
  rewrite (token_list_raises _ []); [reflexivity|].
  exists info. split; [exact Hin|]. exact (summary_raises _ _ Htok Htrue Hnot).
Qed.

(** X11. As soon as one stored record holds a token that is true but is not
    a string (a number, say), GET /api/tokens cannot be answered: the
    handler raises [TypeError] at the slice, with the state as it was. *)
Theorem listing_fails_on_unsliceable_token (W : world) (st : server)
    (info : dict) (token : json) :
  info ∈ get_all_token_info st ->
  dict_lookup info "token" = Some token ->
  truthy token = true ->
  (forall s, token <> JStr s) ->
  Hybrid.handle_get_tokens W st = (st, Raise TypeError).
Proof.
  intros Hin Htok Htrue Hnot.
  exact (listing_unsliceable W st info token Hin Htok Htrue Hnot).
Qed.

Lemma listing_fails_on_unsliceable_token_witness :
  let st := {| connected_clients := ∅;
               tokens := [(JInt 7, [("token", JInt 7)])];
               clock := 0; wire := []; log := [] |} in
  Hybrid.handle_get_tokens calm st = (st, Raise TypeError).
Proof.
  intros st.
  apply (listing_fails_on_unsliceable_token calm st [("token", JInt 7)] (JInt 7));
    [left | reflexivity | reflexivity | discriminate].
Defined.

Lemma http_unsized_outcome (W : world) (d u : dict) (token : json) (st : server) :
  dict_lookup d "accessToken" = Some token ->
  truthy token = true ->
  user_of d = Some u ->
  hashable token = true ->
  len token = Raise TypeError ->
  Hybrid.handle_http_token W (Parsed (JObj d)) st =
  (let inner :=
     fst (Hybrid.handle_token_update W
            (JObj (dict_setitem d "transport" (JStr "http"))) "http" st) in
   ({| connected_clients := connected_clients inner; tokens := tokens inner;
       clock := clock inner; wire := wire inner;
       log := log inner ++
         [LogRecord ERROR "http token handling failed"
            [JStr (exn_str W TypeError)]] |},
    Ok (Hybrid.json_response
          [("status", JStr "error");
           ("message", JStr ("Internal server error: " +:+ exn_str W TypeError))]
          500))).
Proof.
  intros Htok Htrue Huser Hhash Hlen.
  unfold Hybrid.handle_http_token, try_except, Hybrid.http_token_try.
  unfold bind at 1. unfold lift at 1, json_loads.
  unfold bind at 1. unfold lift at 1. cbn [get].
  rewrite (dict_get_found _ _ _ _ Htok), Htrue. cbn [negb].
  unfold bind at 1. unfold lift at 1, Hybrid.setitem.
  unfold bind at 1.
  rewrite (report_unsized W _ u token "http" st);
    [reflexivity | rewrite dict_lookup_setitem_ne; done | exact Htrue
     | rewrite user_of_setitem; exact Huser | exact Hhash | exact Hlen].
Qed.

(** X12. A report over HTTP whose [accessToken] is a non-zero number is
    answered 500, and nothing is broadcast, yet its record has been stored
    under that number: the call fails at [len(access_token)], after the
    store.  From then on GET /api/tokens raises [TypeError]. *)
Theorem numeric_token_is_stored_then_fails (W : world) (d u : dict) (n : Z)
    (st : server) :
  dict_lookup d "accessToken" = Some (JInt n) ->
  n <> 0%Z ->
  user_of d = Some u ->
  let outcome := Hybrid.handle_http_token W (Parsed (JObj d)) st in
  Hybrid.status_of outcome = Some 500%Z /\
  wire (fst outcome) = wire st /\
  (exists info,
     registry_lookup (tokens (fst outcome)) (JInt n) = Some info /\
     dict_lookup info "token" = Some (JInt n) /\
     dict_lookup info "transport" = Some (JStr "http")) /\
  Hybrid.handle_get_tokens W (fst outcome) = (fst outcome, Raise TypeError).
Proof.
  intros Htok Hn Huser outcome. subst outcome.
  assert (Htrue : truthy (JInt n) = true).
  { cbn. destruct (Z.eqb_spec n 0); [contradiction|reflexivity]. }
  rewrite (http_unsized_outcome W d u (JInt n) st Htok Htrue Huser eq_refl eq_refl).
  cbv zeta.
  rewrite (report_unsized W _ u (JInt n) "http" st);
    [ | rewrite dict_lookup_setitem_ne; done | exact Htrue
      | rewrite user_of_setitem; exact Huser | reflexivity | reflexivity ].
  cbn [fst snd tokens connected_clients clock wire log].
  split; [reflexivity|]. split; [reflexivity|]. split.
  - eexists. split; [apply registry_lookup_store_same; reflexivity|].
    split; reflexivity.
  - eapply listing_unsliceable; [apply registry_store_holds | | exact Htrue | ];
      [reflexivity | discriminate].
Qed.

Lemma numeric_token_is_stored_then_fails_witness :
  let outcome :=
    Hybrid.handle_http_token calm
      (Parsed (JObj [("accessToken", JInt 12345)])) init in
  Hybrid.status_of outcome = Some 500%Z /\
  length (tokens (fst outcome)) = 1.
Proof.
  intros outcome.
  destruct (numeric_token_is_stored_then_fails calm
              [("accessToken", JInt 12345)] [] 12345 init)
    as (Hstatus & _); [reflexivity | discriminate | reflexivity |].
  split; [exact Hstatus|vm_compute; reflexivity].
Defined.

Lemma http_truthy_frame (W : world) (d : dict) (st : server) :
  truthy (dict_get d "accessToken" JNull) = true ->
  Hybrid.handle_http_token W (Parsed (JObj d)) st =
  try_except
    (Hybrid.handle_token_update W
       (JObj (dict_setitem d "transport" (JStr "http"))) "http" ;;
     timestamp <- now_isoformat W ;;
     ret (Hybrid.json_response
            [("status", JStr "success");
             ("message", JStr "Token received successfully");
             ("timestamp", timestamp)] 200))
    (Hybrid.http_token_except W) st.
Proof.
  intros Htrue.
  unfold Hybrid.handle_http_token, try_except, Hybrid.http_token_try.
  unfold bind at 1. unfold lift at 1, json_loads.
  unfold bind at 1. unfold lift at 1. cbn [get].
  rewrite Htrue. cbn [negb].
  unfold bind at 1. unfold lift at 1, Hybrid.setitem.
  reflexivity.
Qed.

(** X13. A report whose [accessToken] is a non-empty list or object cannot
    be a key: nothing is stored and nothing is sent, though the clock has
    been read once for the record that was not stored.  Over HTTP the call
    is answered 500; over the websocket the failure is logged. *)
Theorem unhashable_token_is_refused (W : world) (websocket : conn)
    (d u : dict) (token : json) (st : server) :
  dict_lookup d "accessToken" = Some token ->
  truthy token = true ->
  hashable token = false ->
  user_of d = Some u ->
  let refused what :=
    {| connected_clients := connected_clients st; tokens := tokens st;
       clock := S (clock st); wire := wire st;
       log := log st ++ [LogRecord ERROR what [JStr (exn_str W TypeError)]] |} in
  (dict_lookup d "type" = Some (JStr "token_update") ->
   Hybrid.handle_message W websocket (Parsed (JObj d)) st =
     (refused "message handling failed", Ok tt)) /\
  Hybrid.handle_http_token W (Parsed (JObj d)) st =
    (refused "http token handling failed",
     Ok (Hybrid.json_response
           [("status", JStr "error");
            ("message", JStr ("Internal server error: " +:+ exn_str W TypeError))]
           500)).
Proof.
  intros Htok Htrue Hhash Huser refused. subst refused. split.
  - intros Htype. rewrite hybrid_token_update_frame by (exists d; auto).
    unfold try_except.
    rewrite (report_unhashable W d u token "websocket" st Htok Htrue Huser Hhash).
    reflexivity.
  - rewrite http_truthy_frame
      by (rewrite (dict_get_found _ _ _ _ Htok); exact Htrue).
    unfold try_except, bind.
    rewrite (report_unhashable W _ u token "http" st);
      [reflexivity | rewrite dict_lookup_setitem_ne; done | exact Htrue
       | rewrite user_of_setitem; exact Huser | exact Hhash].
Qed.

Lemma unhashable_token_is_refused_witness :
  let body := Parsed (JObj [("accessToken", JArr [JStr "abc"])]) in
  tokens (fst (Hybrid.handle_http_token calm body init)) = [] /\
  Hybrid.status_of (Hybrid.handle_http_token calm body init) = Some 500%Z.
Proof.
  intros body.
  destruct (unhashable_token_is_refused calm 1
              [("accessToken", JArr [JStr "abc"])] [] (JArr [JStr "abc"]) init)
    as [_ Hhttp]; [reflexivity | reflexivity | reflexivity | reflexivity |].
  subst body. unfold Hybrid.status_of. rewrite Hhttp. split; reflexivity.
Defined.

(** ** What every call keeps *)

Lemma hybrid_message_footprint (W : world) (websocket : conn) (message : frame)
    (st : server) :
  report_footprint W "websocket" st
    (fst (Hybrid.handle_message W websocket message st)).
Proof.
  assert (Hquiet : ~ is_token_update message ->
                   report_footprint W "websocket" st
                     (fst (Hybrid.handle_message W websocket message st))).
  { intros Hnot.
    destruct (hybrid_other_frames W websocket message st Hnot)
      as (_ & Ht & Hc & _).
    apply footprint_refl; assumption. }
  destruct message as [|data|e];
    [apply Hquiet; intros (d & [=] & _)| |apply Hquiet; intros (d & [=] & _)].
  destruct (is_object data) eqn:Hobj;
    [|apply Hquiet; intros (d & [= ->] & _); discriminate].
  destruct data as [| | | | |d]; try discriminate. clear Hobj.
  destruct (eq_str (dict_get d "type" JNull) "token_update") eqn:E;
    [|apply Hquiet; intros Hup; apply token_update_type in Hup; congruence].
  apply token_update_type in E.
  rewrite (hybrid_token_update_frame W websocket d st E). unfold try_except.
  pose proof (handle_token_update_footprint W (JObj d) "websocket" st) as Hfoot.
  destruct (Hybrid.handle_token_update W (JObj d) "websocket" st)
    as [st' [[]|e]]; cbn [fst] in *; [exact Hfoot|].
  destruct e; exact Hfoot.
Qed.

Lemma http_token_footprint (W : world) (request : frame) (st : server) :
  report_footprint W "http" st (fst (Hybrid.handle_http_token W request st)).
Proof.
  destruct request as [|data|e];
    [apply footprint_refl; reflexivity| |destruct e; apply footprint_refl; reflexivity].
  destruct (is_object data) eqn:Hobj;
    [|destruct data; try discriminate; apply footprint_refl; reflexivity].
  destruct data as [| | | | |d]; try discriminate. clear Hobj.
  destruct (truthy (dict_get d "accessToken" JNull)) eqn:Htrue.
  - rewrite (http_truthy_frame W d st Htrue). unfold try_except, bind.
    pose proof (handle_token_update_footprint W
                  (JObj (dict_setitem d "transport" (JStr "http"))) "http" st)
      as Hfoot.
    destruct (Hybrid.handle_token_update W
                (JObj (dict_setitem d "transport" (JStr "http"))) "http" st)
      as [st' [[]|e]]; cbn [fst] in *; [exact Hfoot|].
    destruct e; exact Hfoot.
  - unfold Hybrid.handle_http_token, try_except, Hybrid.http_token_try.
    unfold bind at 1. unfold lift at 1, json_loads.
    unfold bind at 1. unfold lift at 1. cbn [get]. rewrite Htrue.
    apply footprint_refl; reflexivity.
Qed.

(** X14. Neither a websocket frame nor an HTTP report ever adds a
    connection to the connection set, and a connection whose sends never
    raise is never dropped by them: [broadcast] prunes only on a failed
    send, and a report over HTTP prunes like one over the websocket. *)
Theorem only_failed_sends_prune (W : world) (websocket : conn)
    (message : frame) (st : server) :
  let by_frame := fst (Hybrid.handle_message W websocket message st) in
  let by_post := fst (Hybrid.handle_http_token W message st) in
  (forall c, c ∈ connected_clients by_frame -> c ∈ connected_clients st) /\
  (forall c, c ∈ connected_clients by_post -> c ∈ connected_clients st) /\
  (forall c, c ∈ connected_clients st ->
             (forall j, send_raises W j c = false) ->
             c ∈ connected_clients by_frame /\ c ∈ connected_clients by_post).
Proof.
  intros by_frame by_post.
  destruct (hybrid_message_footprint W websocket message st) as (_ & Hsub1 & Hstay1).
  destruct (http_token_footprint W message st) as (_ & Hsub2 & Hstay2).
  split; [exact Hsub1|]. split; [exact Hsub2|].
  intros c Hin Hok. split; [apply Hstay1|apply Hstay2]; assumption.
Qed.

Lemma only_failed_sends_prune_witness :
  1 ∈ connected_clients
        (fst (Hybrid.handle_http_token patchy
                (Parsed (JObj [("accessToken", JStr "abc123xyz789")]))
                three_clients)).
Proof.
  destruct (only_failed_sends_prune patchy 1
              (Parsed (JObj [("accessToken", JStr "abc123xyz789")])) three_clients)
    as (_ & _ & Hstay).
  apply Hstay; [vm_compute; set_solver|reflexivity].
Defined.

Lemma filed_store (r : registry) (k : json) (info : dict) (transport : string) :
  Forall (fun kv => filed_under (fst kv) (snd kv)) r ->
  hashable k = true ->
  truthy k = true ->
  dict_lookup info "token" = Some k ->
  dict_lookup info "transport" = Some (JStr transport) ->
  transport = "websocket" \/ transport = "http" ->
  Forall (fun kv => filed_under (fst kv) (snd kv)) (registry_store r k info).
Proof.
  intros Hall Hhash Htrue Htok Htrans Hwhich.
  induction r as [|[k0 v0] r IH]; cbn [registry_store].
  - constructor; [|constructor]. cbn [fst snd].
    exists k, transport. rewrite (key_eqb_refl _ Hhash). auto.
  - apply Forall_cons in Hall as [H0 Hall].
    destruct (key_eqb k k0) eqn:E.
    + constructor; [|exact Hall]. cbn [fst snd].
      exists k, transport. rewrite key_eqb_sym, E. auto.
    + constructor; [exact H0|exact (IH Hall)].
Qed.

Lemma filed_del (r : registry) (k : json) :
  Forall (fun kv => filed_under (fst kv) (snd kv)) r ->
  Forall (fun kv => filed_under (fst kv) (snd kv)) (registry_del r k).
Proof.
  induction r as [|[k0 v0] r IH]; cbn [registry_del]; [auto|].
  intros Hall. apply Forall_cons in Hall as [H0 Hall].
  destruct (key_eqb k k0); [exact Hall|]. constructor; [exact H0|exact (IH Hall)].
Qed.

Lemma sound_after_report (W : world) (transport : string) (st after : server) :
  transport = "websocket" \/ transport = "http" ->
  report_footprint W transport st after ->
  sound_registry (tokens st) -> sound_registry (tokens after).
Proof.
  intros Hwhich ([Hsame|(k & info & Hhash & Htrue & Htok & Htrans & Hstore)] & _)
         [Hdistinct Hfiled].
  - rewrite Hsame. split; assumption.
  - rewrite Hstore. split; [apply distinct_keys_store; exact Hdistinct|].
    exact (filed_store _ _ _ _ Hfiled Hhash Htrue Htok Htrans Hwhich).
Qed.

Lemma listing_keeps_registry (W : world) (st : server) :
  tokens (fst (Hybrid.handle_get_tokens W st)) = tokens st.
Proof.
  unfold Hybrid.handle_get_tokens, bind, lift.
  destruct (Hybrid.token_list (map snd (tokens st)) []); reflexivity.
Qed.

Lemma perform_keeps_sound (W : world) (c : call) (st : server) :
  sound_registry (tokens st) -> sound_registry (tokens (perform W c st)).
Proof.
  intros Hsound. destruct c as [ev|request| |token| |]; cbn [perform].
  - destruct ev as [c|c message|c abrupt]; cbn [react].
    + exact Hsound.
    + exact (sound_after_report W "websocket" _ _ (or_introl eq_refl)
               (hybrid_message_footprint W c message st) Hsound).
    + unfold bind, clients_remove.
      destruct abrupt; cbn [logger ret fst connected_clients];
        match goal with
        | |- context [decide ?P] => destruct (decide P)
        end; exact Hsound.
  - exact (sound_after_report W "http" _ _ (or_intror eq_refl)
             (http_token_footprint W request st) Hsound).
  - rewrite listing_keeps_registry. exact Hsound.
  - unfold remove_token.
    destruct (registry_lookup (tokens st) (JStr token)); [|exact Hsound].
    destruct Hsound as [Hdistinct Hfiled]. cbn.
    split; [apply distinct_keys_del; exact Hdistinct|apply filed_del; exact Hfiled].
  - cbn. split; [exact I|constructor].
  - unfold request_token_refresh, bind, now_isoformat.
    rewrite broadcast_pass. exact Hsound.
Qed.

(** X15. Whatever is asked of the dual-transport service, in any order
    (connections, frames, disconnections, HTTP reports, listings, removals,
    clears, refresh requests), the registry keeps one record per key, and
    every record holds the reported token, which is true and equal to its
    key, and the transport it came by, "websocket" or "http". *)
Theorem registry_stays_sound (W : world) (calls : list call) (st : server) :
  sound_registry (tokens st) ->
  sound_registry (tokens (perform_all W calls st)).
Proof.
  revert st. induction calls as [|c calls IH]; intros st Hsound; [exact Hsound|].
  cbn [perform_all fold_left]. apply IH. apply perform_keeps_sound. exact Hsound.
Qed.

Lemma registry_stays_sound_witness :
  sound_registry
    (tokens (perform_all calm
               [Websocket (Connect 1);
                PostToken (Parsed (JObj [("accessToken", JStr "abc123xyz789")]));
                Websocket (Receive 1 (Parsed (report "abc123xyz789")));
                RemoveToken "zzz"] init)).
Proof.
  apply registry_stays_sound. split; [exact I|constructor].
Defined.

(** ** A session from accept to close *)

Lemma loop_keeps_reliable (W : world) (websocket : conn) (incoming : list frame) :
  (forall j, send_raises W j websocket = false) ->
  forall st,
    websocket ∈ connected_clients st ->
    let outcome :=
      for_each (fun _ message => Hybrid.handle_message W websocket message)
        incoming tt st in
    snd outcome = Ok tt /\
    websocket ∈ connected_clients (fst outcome) /\
    (forall c, c ∈ connected_clients (fst outcome) -> c ∈ connected_clients st).
Proof.
  intros Hok. induction incoming as [|message incoming IH]; intros st Hin.
  - cbn. auto.
  - cbn [for_each]. unfold bind.
    pose proof (hybrid_never_raises W websocket message st) as Hnever.
    destruct (hybrid_message_footprint W websocket message st)
      as (_ & Hsub & Hstay).
    destruct (Hybrid.handle_message W websocket message st) as [st' [[]|e]];
      [|discriminate].
    cbn [fst] in *.
    destruct (IH st' (Hstay _ Hin Hok)) as (Hres & Hin' & Hsub').
    split; [exact Hres|]. split; [exact Hin'|].
    intros c Hc. apply Hsub, Hsub'. exact Hc.
Qed.

Lemma session_outcome (W : world) (websocket : conn)
    (incoming : list frame) (abrupt : bool) (st : server) :
  (forall j, send_raises W j websocket = false) ->
  exists final,
    handle_client (Hybrid.handle_message W) websocket incoming abrupt st
    = (final, Ok tt) /\
    (websocket ∉ connected_clients final) /\
    (forall c, c ∈ connected_clients final -> c ∈ connected_clients st).
Proof.
  intros Hok.
  unfold handle_client, bind, logger, clients_add, try_finally, try_except_only.
  cbn [connected_clients tokens clock wire log].
  set (st2 := {| connected_clients := connected_clients st ∪ {[websocket]};
                 tokens := tokens st; clock := clock st; wire := wire st;
                 log := _ |}).
  assert (Hin2 : websocket ∈ connected_clients st2) by (cbn; set_solver).
  destruct (loop_keeps_reliable W websocket incoming Hok st2 Hin2)
    as (Hres & Hin3 & Hsub3).
  destruct (for_each _ incoming tt st2) as [st3 [[]|e]]; [|discriminate].
  cbn [fst snd] in *.
  assert (Hsub : forall c, c ∈ connected_clients st3 ∖ {[websocket]} ->
                           c ∈ connected_clients st).
  { intros c Hc. apply elem_of_difference in Hc as [Hc Hne].
    apply Hsub3 in Hc. cbn in Hc. set_solver. }
  destruct abrupt; cbn [raise ret is_ConnectionClosed];
    unfold clients_remove; cbn [connected_clients tokens clock wire log];
    (destruct (decide (websocket ∈ connected_clients st3)); [|contradiction]);
    eexists; (split; [reflexivity|]); cbn [connected_clients];
    (split; [set_solver|exact Hsub]).
Qed.

(** X16. A connection whose sends never raise is handled to the end
    without a fault: however it closes and whatever frames it sent,
    [handle_client] returns normally, the connection is out of the
    connection set afterwards, and no connection has been added. *)
Theorem session_ends_cleanly (W : world) (websocket : conn)
    (incoming : list frame) (abrupt : bool) (st : server) :
  (forall j, send_raises W j websocket = false) ->
  let outcome :=
    handle_client (Hybrid.handle_message W) websocket incoming abrupt st in
  snd outcome = Ok tt /\
  (websocket ∉ connected_clients (fst outcome)) /\
  (forall c, c ∈ connected_clients (fst outcome) -> c ∈ connected_clients st).
Proof.
  intros Hok outcome. subst outcome.
  destruct (session_outcome W websocket incoming abrupt st Hok)
    as (final & -> & Hout & Hsub).
  cbn [fst snd]. auto.
Qed.

Lemma session_ends_cleanly_witness :
  snd (handle_client (Hybrid.handle_message calm) 1
         [Parsed (report "abc123xyz789"); Malformed] true init) = Ok tt.
Proof.
  destruct (session_ends_cleanly calm 1
              [Parsed (report "abc123xyz789"); Malformed] true init)
    as (Hres & _); [reflexivity|exact Hres].
Defined.

(** ** Refresh requests, previews, the module-level instance *)

Lemma str_take_all (n : nat) (s : string) :
  String.length s <= n -> str_take n s = s.
Proof.
  revert s. induction n as [|n IH]; intros [|a s]; simpl; try reflexivity;
    try lia.
  intros H. rewrite IH; [reflexivity|lia].
Qed.

(** X18. The preview of the listing at the short end: a non-empty token
    of at most 8 characters is previewed whole, followed by "..."; an
    empty, missing or otherwise false token is previewed as the empty
    string. *)
Theorem preview_of_short_token (info : dict) :
  (forall token,
     dict_lookup info "token" = Some (JStr token) ->
     token <> "" ->
     String.length token <= 8 ->
     exists entry,
       Hybrid.summary info = Ok entry /\
       dict_lookup entry "token_preview" = Some (JStr (token +:+ "..."))) /\
  (truthy (dict_get info "token" JNull) = false ->
   exists entry,
     Hybrid.summary info = Ok entry /\
     dict_lookup entry "token_preview" = Some (JStr "")).
Proof.
  split.
  - intros token Htok Hne Hshort. unfold Hybrid.summary.
    rewrite !(dict_get_found _ _ _ _ Htok), (truthy_nonempty _ Hne).
    cbn [slice8_plus_dots]. rewrite (str_take_all _ _ Hshort).
    eexists. split; reflexivity.
  - intros Hfalse. unfold Hybrid.summary. rewrite Hfalse.
    eexists. split; reflexivity.
Qed.

Lemma preview_of_short_token_witness :
  exists entry,
    Hybrid.summary [("token", JStr "abc")] = Ok entry /\
    dict_lookup entry "token_preview" = Some (JStr "abc...").
Proof.
  apply (proj1 (preview_of_short_token [("token", JStr "abc")]) "abc");
    [reflexivity | discriminate | simpl; lia].
Defined.

(** X19. The module keeps one instance: once [get_hybrid_server] has
    made it, every later call returns that same instance, with the port it
    was made with, whatever port is asked for; and [start_hybrid_server]
    with another port starts that instance, keeping its port and its
    registry. *)
Theorem instance_is_made_once (R : Hybrid.runtime) (g : HybridGlobals.global)
    (p q : Z) :
  let made := HybridGlobals.get_hybrid_server p g in
  HybridGlobals.get_hybrid_server q (fst made) = made /\
  (g = None -> HybridGlobals.port (snd made) = p) /\
  (exists i,
     fst (HybridGlobals.start_hybrid_server R q (fst made)) = Some i /\
     HybridGlobals.port i = HybridGlobals.port (snd made) /\
     HybridGlobals.service i = HybridGlobals.service (snd made)) /\
  HybridGlobals.get_auto_tokens (fst (HybridGlobals.start_hybrid_server R q (fst made)))
    = HybridGlobals.get_auto_tokens (fst made).
Proof.
  intros made. subst made. unfold HybridGlobals.start_hybrid_server.
  destruct g as [i|]; cbn [HybridGlobals.get_hybrid_server fst snd].
  - destruct (Hybrid.start R (HybridGlobals.sockets i)) as [l started].
    repeat split; [discriminate|]. eexists. repeat split.
  - cbn [HybridGlobals.TokenHybridServer HybridGlobals.sockets].
    destruct (Hybrid.start R Hybrid.stopped) as [l started].
    repeat split. eexists. repeat split.
Qed.

(** X20. A successful [start] logs the HTTP endpoint and the health check
    endpoint in every case, also when the HTTP listener is not up (aiohttp
    missing, or its start failed): the last four log records of a start
    that returns [True] are always the same. *)
Theorem start_always_announces_http (R : Hybrid.runtime) (l : Hybrid.listeners) :
  snd (Hybrid.start R l) = true ->
  exists earlier,
    Hybrid.journal (fst (Hybrid.start R l)) =
    earlier ++
    [LogRecord INFO "hybrid server started" [];
     LogRecord INFO "WebSocket endpoint" [];
     LogRecord INFO "HTTP endpoint" [];
     LogRecord INFO "health check endpoint" []].
Proof.
  unfold Hybrid.start.
  destruct (Hybrid.WEBSOCKETS_AVAILABLE R); cbn [negb]; [|discriminate].
  destruct (Hybrid.serve_raises R); [discriminate|]. intros _.
  match goal with
  | |- context [if Hybrid.AIOHTTP_AVAILABLE R then ?a else ?b] =>
      exists (Hybrid.journal (if Hybrid.AIOHTTP_AVAILABLE R then a else b))
  end.
  cbn [fst Hybrid.note Hybrid.journal].
  rewrite <- !app_assoc. reflexivity.
Qed.

Lemma start_always_announces_http_witness :
  Hybrid.http_listening (fst (Hybrid.start no_aiohttp Hybrid.stopped)) = false /\
  exists earlier,
    Hybrid.journal (fst (Hybrid.start no_aiohttp Hybrid.stopped)) =
    earlier ++
    [LogRecord INFO "hybrid server started" [];
     LogRecord INFO "WebSocket endpoint" [];
     LogRecord INFO "HTTP endpoint" [];
     LogRecord INFO "health check endpoint" []].
Proof.
  split; [reflexivity|].
  apply (start_always_announces_http no_aiohttp Hybrid.stopped). reflexivity.
Defined.

Lemma session_fate (handle_message : conn -> frame -> M unit) (websocket : conn)
    (incoming : list frame) (abrupt : bool) (st : server) :
  (forall message st', snd (handle_message websocket message st') = Ok tt) ->
  exists final,
    (handle_client handle_message websocket incoming abrupt st = (final, Ok tt) \/
     handle_client handle_message websocket incoming abrupt st = (final, Raise KeyError))
    /\ (websocket ∉ connected_clients final).
Proof.
  intros Hnever.
  unfold handle_client, bind, logger, clients_add, try_finally, try_except_only.
  cbn [connected_clients tokens clock wire log].
  match goal with
  | |- context [for_each ?body incoming tt ?s] =>
      pose proof (loop_completes handle_message websocket Hnever incoming s) as Hloop;
      destruct (for_each body incoming tt s) as [st3 [[]|e]]
  end; [|discriminate].
  destruct abrupt; cbn [raise ret is_ConnectionClosed];
    unfold clients_remove; cbn [connected_clients tokens clock wire log];
    destruct (decide (websocket ∈ connected_clients st3));
    eexists; (split; [(left; reflexivity) || (right; reflexivity)|]);
    cbn [connected_clients]; set_solver.
Qed.

(** X21. However a connection behaves and however its sends fare,
    [handle_client] ends in one of two ways, in either class: it returns
    normally, or its [finally] raises [KeyError]; no other exception leaves
    it, and either way the connection is not in the connection set
    afterwards. *)
Theorem session_ends_one_of_two_ways (W : world) (websocket : conn)
    (incoming : list frame) (abrupt : bool) (st : server) :
  let hybrid := handle_client (Hybrid.handle_message W) websocket incoming abrupt st in
  let legacy := handle_client (Legacy.handle_message W) websocket incoming abrupt st in
  (snd hybrid = Ok tt \/ snd hybrid = Raise KeyError) /\
  (websocket ∉ connected_clients (fst hybrid)) /\
  (snd legacy = Ok tt \/ snd legacy = Raise KeyError) /\
  (websocket ∉ connected_clients (fst legacy)).
Proof.
  intros hybrid legacy. subst hybrid legacy.
  destruct (session_fate (Hybrid.handle_message W) websocket incoming abrupt st
              (hybrid_never_raises W websocket)) as (fh & Hh & Hhout).
  destruct (session_fate (Legacy.handle_message W) websocket incoming abrupt st
              (legacy_never_raises W websocket)) as (fl & Hl & Hlout).
  destruct Hh as [-> | ->], Hl as [-> | ->]; cbn [fst snd]; auto.
Qed.

Lemma registry_lookup_value (r : registry) (k : json) (info : dict) :
  registry_lookup r k = Some info -> info ∈ map snd r.
Proof.
  induction r as [|[k0 v0] r IH]; cbn [registry_lookup map snd]; [discriminate|].
  destruct (key_eqb k k0); [intros [= ->]; left|intros H; right; exact (IH H)].
Qed.

Lemma registry_entry (r : registry) :
  forall (i : nat) (k : json) (info : dict),
    map fst r !! i = Some k -> map snd r !! i = Some info ->
    r !! i = Some (k, info).
Proof.
  induction r as [|[k0 v0] r IH]; intros [|i] k info; cbn; try discriminate.
  - intros [= ->] [= ->]. reflexivity.
  - apply IH.
Qed.

(** X22. The three read accessors agree: [get_tokens] and
    [get_all_token_info] list the same number of entries, in the same
    order, and the record [get_token_info] returns for a token that is a
    key is one of the records [get_all_token_info] lists. *)
Theorem accessors_agree (st : server) (token : string) :
  length (get_tokens st) = length (get_all_token_info st) /\
  (forall i k info,
     get_tokens st !! i = Some k ->
     get_all_token_info st !! i = Some info ->
     tokens st !! i = Some (k, info)) /\
  (JStr token ∈ get_tokens st ->
   get_token_info st token ∈ get_all_token_info st).
Proof.
  unfold get_tokens, get_all_token_info, get_token_info. split; [|split].
  - rewrite !length_map. reflexivity.
  - intros i k info. apply registry_entry.
  - intros Hin. destruct (registry_lookup_present _ _ Hin) as [info Hinfo].
    rewrite Hinfo. exact (registry_lookup_value _ _ _ Hinfo).
Qed.

Lemma accessors_agree_witness :
  get_token_info (after_report "abc123xyz789") "abc123xyz789"
  ∈ get_all_token_info (after_report "abc123xyz789").
Proof.
  apply (proj2 (proj2 (accessors_agree (after_report "abc123xyz789")
                         "abc123xyz789"))).
  vm_compute. left.
Defined.

(** ** [broadcast] among other connections *)















(** C3, on the code: a pass of [broadcast] can stop short.  With three
    connections in the set, and a fourth accepted while the first send is
    awaited, the set iterator finds the set grown at its next step: the
    pass ends in [RuntimeError] after one send, two of the three members
    never tried, and with no connection sending anything awry. *)
Theorem broadcast_aborts_when_set_changes :
  let outcome :=
    Live.broadcast calm accept_during_first_send (JStr "hello") three_clients in
  size (connected_clients three_clients) = 3 /\
  snd outcome = Raise RuntimeError /\
  map target (wire (fst outcome)) =
    take 1 (elements (connected_clients three_clients)) /\
  (forall k c, send_raises calm k c = false) /\
  forall c, c ∈ connected_clients (fst outcome) <-> c ∈ [1; 2; 3; 4].
Proof.
  intros outcome. split; [reflexivity|]. split; [reflexivity|].
  split; [vm_compute; reflexivity|]. split; [reflexivity|].
  intros c. subst outcome.
  assert (Hset : connected_clients
                   (fst (Live.broadcast calm accept_during_first_send
                           (JStr "hello") three_clients))
                 = {[1; 2; 3]} ∪ {[4]}) by reflexivity.
  rewrite Hset. set_solver.
Qed.









